(** * claude-dashboard: usage records, period filter, aggregation, cost

    A shallow embedding of the data-transformation core of the dashboard
    (models.py, parser.py, calculator.py) and the properties its
    specification states about it.

    Python values are modelled as the program has them: [int] is [Z]
    (unbounded), [float] is the kernel's binary64 [float], [str] is the
    [string] of its UTF-8 bytes, a [dict] is an insertion-ordered
    association list, a [set] is a [gset].  Exceptions are values of [exn]
    carried by [result]; the wall clock read by [datetime.now()] is a
    component of the [World] threaded through [IO].

    What the program calls in Python's library and is not arithmetic is
    taken from outside, and the theorems hold whatever it does beyond what
    is stated of it: [str.lower] and [str.strip] (the class [Str.Unicode]),
    [json.loads], [datetime.fromisoformat] and the file system (parameters
    of the reader). *)

From Stdlib Require Import ZArith String Ascii List Floats.
From stdpp Require Import base option list strings gmap sorting.

Set Warnings "-inexact-float,-register-all".
Open Scope Z_scope.

(** ** Exceptions, and the monads that carry them *)

(** The exception classes the program can meet.  [JSONDecodeError] and
    [UnicodeDecodeError] derive from [ValueError]; [OSError] stands for
    itself and the classes derived from it ([IOError] is another name of
    it). *)
Inductive exn : Set :=
  | KeyError | ValueError | AttributeError | TypeError
  | OverflowError | ZeroDivisionError
  | JSONDecodeError | UnicodeDecodeError | RecursionError | MemoryError
  | OSError.

#[global] Instance exn_eq_dec : EqDecision exn.
Proof. solve_decision. Defined.

(** [isinstance(e, cls)]: what a handler [except cls] catches. *)
Definition is_a (cls e : exn) : bool :=
  match cls, e with
  | ValueError, (JSONDecodeError | UnicodeDecodeError) => true
  | _, _ => bool_decide (cls = e)
  end.

Inductive result (A : Type) : Type :=
  | Ok (a : A)
  | Raise (e : exn).
Arguments Ok {A} a.
Arguments Raise {A} e.

#[global] Instance result_ret : MRet result := λ A a, Ok a.
#[global] Instance result_bind : MBind result := λ A B f r,
  match r with Ok a => f a | Raise e => Raise e end.

Definition is_Ok {A} (r : result A) : Prop :=
  match r with Ok _ => True | Raise _ => False end.

(** ** Python [str] operations used by the program

    A [str] is a sequence of code points; it is held here as the bytes of
    its UTF-8 encoding.  In that encoding two strings are equal when their
    bytes are, and an ASCII word occurs in a string exactly where its
    bytes occur.

    [str.lower] and [str.strip] go by the Unicode character database:
    [lower] maps the Kelvin sign (U+212A) to "k", [strip] removes the
    no-break space (U+00A0).  They are taken from outside, as the class
    [Str.Unicode]; what is known of them is what they do on ASCII text,
    where [lower] maps the letters A-Z to a-z and leaves every other
    character alone, and [strip] removes the characters 9-13, 28-31 and
    the space from both ends. *)

Module Str.

Definition lower_char (c : ascii) : ascii :=
  let n := N_of_ascii c in
  if ((65 <=? n) && (n <=? 90))%N then ascii_of_N (n + 32) else c.

Fixpoint ascii_lower (s : string) : string :=
  match s with
  | EmptyString => EmptyString
  | String c s' => String (lower_char c) (ascii_lower s')
  end.

Definition is_space (c : ascii) : bool :=
  let n := N_of_ascii c in
  (((9 <=? n) && (n <=? 13)) || ((28 <=? n) && (n <=? 32)))%N.

Fixpoint ascii_lstrip (s : string) : string :=
  match s with
  | EmptyString => EmptyString
  | String c s' => if is_space c then ascii_lstrip s' else s
  end.

Fixpoint ascii_rstrip (s : string) : string :=
  match s with
  | EmptyString => EmptyString
  | String c s' =>
      match ascii_rstrip s' with
      | EmptyString => if is_space c then EmptyString else String c EmptyString
      | r => String c r
      end
  end.

Definition ascii_strip (s : string) : string := ascii_rstrip (ascii_lstrip s).

(** Text of ASCII characters only. *)
Fixpoint is_ascii (s : string) : bool :=
  match s with
  | EmptyString => true
  | String c s' => (N_of_ascii c <? 128)%N && is_ascii s'
  end.

(** [s.lower()] and [s.strip()]. *)
Class Unicode : Type := {
  lower : string → string;
  strip : string → string;
  lower_ascii (s : string) : is_ascii s = true → lower s = ascii_lower s;
  strip_ascii (s : string) : is_ascii s = true → strip s = ascii_strip s;
}.

(** Does [needle] match at the head of [hay]? *)
Fixpoint starts_with (needle hay : string) : bool :=
  match needle, hay with
  | EmptyString, _ => true
  | String _ _, EmptyString => false
  | String a needle', String b hay' => Ascii.eqb a b && starts_with needle' hay'
  end.

(** [needle in hay]: is there a position of [hay] where [needle] starts? *)
Fixpoint contains (needle hay : string) : bool :=
  starts_with needle hay ||
  match hay with
  | EmptyString => false
  | String _ hay' => contains needle hay'
  end.

(** [s.replace(old, new)] for a one-character [old]. *)
Fixpoint replace_char (old : ascii) (new : string) (s : string) : string :=
  match s with
  | EmptyString => EmptyString
  | String c s' =>
      if Ascii.eqb c old then String.append new (replace_char old new s')
      else String c (replace_char old new s')
  end.

(** What "contains" means: the needle sits between some prefix and suffix. *)
Definition is_substring (needle hay : string) : Prop :=
  ∃ pre post, hay = String.append pre (String.append needle post).

End Str.

(** ** Insertion-ordered dictionaries

    A Python [dict] keeps its keys in the order of their insertion, and
    that order decides the order of the float additions in [sum].  The list
    holds one pair per key; a lookup reads the first pair of a key. *)

Module Dict.

Definition t (V : Type) : Type := list (string * V).

Fixpoint get {V} (k : string) (d : t V) : option V :=
  match d with
  | [] => None
  | (k', v) :: d' => if String.eqb k k' then Some v else get k d'
  end.

(** [k in d] *)
Definition contains {V} (k : string) (d : t V) : bool :=
  match get k d with Some _ => true | None => false end.

(** [d[k] = v]: overwrite in place, or append a new last entry. *)
Fixpoint set {V} (k : string) (v : V) (d : t V) : t V :=
  match d with
  | [] => [(k, v)]
  | (k', v') :: d' =>
      if String.eqb k k' then (k', v) :: d' else (k', v') :: set k v d'
  end.

(** Mutation of the object stored under [k], seen through the dictionary. *)
Fixpoint update {V} (k : string) (f : V → V) (d : t V) : t V :=
  match d with
  | [] => []
  | (k', v') :: d' =>
      if String.eqb k k' then (k', f v') :: d' else (k', v') :: update k f d'
  end.

(** [d.values()], in insertion order. *)
Definition values {V} (d : t V) : list V := map snd d.

End Dict.

(** ** Python numbers *)

Module Num.

(** The least magnitude that rounds (to nearest, ties to even) beyond the
    largest double: [2^1024 - 2^970]. *)
Definition overflow_threshold : Z := 2 ^ 1024 - 2 ^ 970.

(** Rounding of [± m * 2^e] to binary64. *)
Definition round (negative : bool) (m : Z) (e : Z) : float :=
  match m with
  | Zpos p => SF2Prim (binary_round prec emax negative p e)
  | _ => SF2Prim (S754_zero negative)
  end.

(** [float(n)]: correctly rounded; [OverflowError] beyond the double range. *)
Definition float_of_int (n : Z) : result float :=
  if overflow_threshold <=? Z.abs n then Raise OverflowError
  else Ok (round (n <? 0) (Z.abs n) 0).

(** [a / b] on two ints: the correctly rounded quotient.  The quotient is
    computed to 1080 binary places, below half the least subnormal
    ([2^-1075]), with one more sticky bit for the remainder. *)
Definition int_truediv (a b : Z) : result float :=
  if b =? 0 then Raise ZeroDivisionError
  else if overflow_threshold * Z.abs b <=? Z.abs a then Raise OverflowError
  else
    let n := Z.abs a * 2 ^ 1080 in
    let q := n / Z.abs b in
    let sticky := if n mod Z.abs b =? 0 then 0 else 1 in
    Ok (round (xorb (a <? 0) (b <? 0)) (2 * q + sticky) (-1081)).

(** A number is an [int] or a [float]. *)
Inductive t : Set :=
  | Int (n : Z)
  | Float (f : float).

Definition to_float (x : t) : result float :=
  match x with
  | Int n => float_of_int n
  | Float f => Ok f
  end.

(** [x + y] *)
Definition add (x y : t) : result t :=
  match x, y with
  | Int a, Int b => Ok (Int (a + b))
  | _, _ => a ← to_float x; b ← to_float y; Ok (Float (a + b)%float)
  end.

(** [x * y] *)
Definition mul (x y : t) : result t :=
  match x, y with
  | Int a, Int b => Ok (Int (a * b))
  | _, _ => a ← to_float x; b ← to_float y; Ok (Float (a * b)%float)
  end.

(** [x / y]: true division always yields a float. *)
Definition truediv (x y : t) : result float :=
  match x, y with
  | Int a, Int b => int_truediv a b
  | _, _ =>
      a ← to_float x; b ← to_float y;
      if (b =? 0)%float then Raise ZeroDivisionError
      else Ok (a / b)%float
  end.

(** [f > 0] for a float [f] and the int [0] (an exact comparison). *)
Definition float_gt_zero (f : float) : bool := (0 <? f)%float.

(** [sum(xs)]: start from the int [0] and add from the left.  (CPython
    3.12 and later also carry a correction term for the rounding errors
    of the float additions; nothing below depends on the last bits of a
    sum.) *)
Fixpoint sum_from (acc : t) (xs : list t) : result t :=
  match xs with
  | [] => Ok acc
  | x :: xs' => acc' ← add acc x; sum_from acc' xs'
  end.
Definition sum (xs : list t) : result t := sum_from (Int 0) xs.

End Num.

(** ** Timestamps and the wall clock

    A timezone-aware [datetime] is modelled by its wall-clock reading
    [wall], in microseconds since 0001-01-01T00:00:00 in its own zone, and
    the zone's [utcoffset] in microseconds; aware datetimes are ordered by
    the instant they denote.  [Datetime.t] is the type of the aware
    datetimes: the clock readings, the bounds of a period, the timestamps
    of the records of the specification.  A [datetime] as such,
    [Datetime.any], is aware or naive (no zone): naive datetimes are
    ordered by their wall clock, and the comparison of a naive with an
    aware one raises [TypeError]. *)

Module Datetime.

Record t : Set := mk { wall : Z; utcoffset : Z }.

Definition instant (d : t) : Z := wall d - utcoffset d.

(** [a < b], [a > b] *)
Definition lt (a b : t) : bool := instant a <? instant b.
Definition gt (a b : t) : bool := instant b <? instant a.

(** [a <= b] as a proposition, for specifications. *)
Definition le (a b : t) : Prop := instant a ≤ instant b.

Definition us_per_day : Z := 86400 * 1000000.

(** [timedelta(days=d)], in microseconds; a timedelta holds at most
    999999999 days. *)
Definition timedelta_days (d : Z) : result Z :=
  if 999999999 <? Z.abs d then Raise OverflowError else Ok (d * us_per_day).

(** One past the last microsecond of 9999-12-31 (day 3652059). *)
Definition max_wall : Z := 3652059 * us_per_day.

(** [d - delta]: the same zone, the wall clock moved back; out of the
    years 1..9999 it is an [OverflowError]. *)
Definition sub (d : t) (delta : Z) : result t :=
  let w := wall d - delta in
  if (0 <=? w) && (w <? max_wall) then Ok (mk w (utcoffset d))
  else Raise OverflowError.

(** Any [datetime]: aware, or naive with its wall clock. *)
Inductive any : Set :=
  | Aware (d : t)
  | Naive (naive_wall : Z).

Definition is_aware (a : any) : bool :=
  match a with Aware _ => true | Naive _ => false end.

(** What two datetimes of the same kind are compared by. *)
Definition key (a : any) : Z :=
  match a with Aware d => instant d | Naive n => n end.

(** [a < b], [a > b] on any two datetimes. *)
Definition any_lt (a b : any) : result bool :=
  match a, b with
  | Aware x, Aware y => Ok (lt x y)
  | Naive x, Naive y => Ok (x <? y)
  | _, _ => Raise TypeError
  end.
Definition any_gt (a b : any) : result bool :=
  match a, b with
  | Aware x, Aware y => Ok (gt x y)
  | Naive x, Naive y => Ok (y <? x)
  | _, _ => Raise TypeError
  end.

(** [a <= b] as a proposition: the two are of one kind and in order. *)
Definition any_le (a b : any) : Prop :=
  match a, b with
  | Aware x, Aware y => le x y
  | Naive x, Naive y => x ≤ y
  | _, _ => False
  end.

End Datetime.

(** A record holds its timestamp as a [datetime].  The type of the field
    is left open: [Datetime.t] for the records of the specification, whose
    timestamps are aware, [Datetime.any] for the records as the reader
    builds them, whose timestamps are what [fromisoformat] returned. *)
Class Timestamp (T : Type) : Type := datetime_of : T → Datetime.any.

#[global] Instance aware_timestamp : Timestamp Datetime.t := Datetime.Aware.
#[global] Instance any_timestamp : Timestamp Datetime.any := λ d, d.

(** The world outside the program: what the clock will answer to the
    successive calls of [datetime.now().astimezone()], and how many calls
    were made so far. *)
Record World : Type := mkWorld { clock : nat → Datetime.t; ticks : nat }.

Definition IO (A : Type) : Type := World → result A * World.

#[global] Instance IO_ret : MRet IO := λ A a w, (Ok a, w).
#[global] Instance IO_bind : MBind IO := λ A B f m w,
  match m w with
  | (Ok a, w') => f a w'
  | (Raise e, w') => (Raise e, w')
  end.

Definition lift {A} (r : result A) : IO A := λ w, (r, w).

(** [datetime.now().astimezone()] *)
Definition now : IO Datetime.t :=
  λ w, (Ok (clock w (ticks w)), mkWorld (clock w) (S (ticks w))).

(** ** Decoded JSON values (what [json.loads] returns) *)

Inductive json : Type :=
  | JNull
  | JBool (b : bool)
  | JInt (n : Z)
  | JFloat (f : float)
  | JStr (s : string)
  | JArr (l : list json)
  | JObj (o : list (string * json)).

Module Json.

(** Truth value of a decoded value: [None], [False], zero, and the empty
    string, list and dict are false. *)
Definition truthy (v : json) : bool :=
  match v with
  | JNull => false
  | JBool b => b
  | JInt n => negb (n =? 0)
  | JFloat f => negb (f =? 0)%float
  | JStr s => negb (String.eqb s "")
  | JArr l => match l with [] => false | _ => true end
  | JObj o => match o with [] => false | _ => true end
  end.

(** [v.get(k, default)]: only a dict has the method. *)
Definition get (v : json) (k : string) (default : json) : result json :=
  match v with
  | JObj o => Ok (match Dict.get k o with Some x => x | None => default end)
  | _ => Raise AttributeError
  end.

(** [v[k]]: a key of a dict; other decoded values take no string key. *)
Definition getitem (v : json) (k : string) : result json :=
  match v with
  | JObj o =>
      match Dict.get k o with
      | Some x => Ok x
      | None => Raise KeyError
      end
  | _ => Raise TypeError
  end.

(** [v.replace("Z", "+00:00")]: only a str has the method. *)
Definition replace_Z (v : json) : result string :=
  match v with
  | JStr s => Ok (Str.replace_char "Z"%char "+00:00" s)
  | _ => Raise AttributeError
  end.

End Json.

(** ** models.py *)

(** A dataclass does not check its annotations: [from_dict] stores the
    decoded values as they come.  The records are therefore generic in
    what their fields hold; the rest of the pipeline uses them at the
    annotated types ([str] and [int]). *)

Module TokenUsage.

Record t (I : Type) : Type := mk {
  input_tokens : I;
  output_tokens : I;
  cache_creation_input_tokens : I;
  cache_read_input_tokens : I;
}.
Arguments mk {I}.
Arguments input_tokens {I}.
Arguments output_tokens {I}.
Arguments cache_creation_input_tokens {I}.
Arguments cache_read_input_tokens {I}.

Definition total_tokens (u : t Z) : Z :=
  input_tokens u + output_tokens u +
  cache_creation_input_tokens u + cache_read_input_tokens u.

End TokenUsage.

Module UsageEntry.

Record t (T S I : Type) : Type := mk {
  timestamp : T;
  session_id : S;
  model : S;
  usage : TokenUsage.t I;
}.
Arguments mk {T S I}.
Arguments timestamp {T S I}.
Arguments session_id {T S I}.
Arguments model {T S I}.
Arguments usage {T S I}.

Section FromDict.

(** [datetime.fromisoformat], from Python's library: the datetime a string
    denotes, aware when the string carries a UTC offset and naive when it
    does not; [None] stands for the [ValueError] it raises on a string
    that is not an ISO 8601 date. *)
Variable fromisoformat : string → option Datetime.any.

Definition parse_timestamp (s : string) : result Datetime.any :=
  match fromisoformat s with
  | Some d => Ok d
  | None => Raise ValueError
  end.

(** The body of the [try] block. *)
Definition from_dict_try (data : json)
    : result (option (t Datetime.any json json)) :=
  message ← Json.get data "message" (JObj []);
  usage_data ← Json.get message "usage" (JObj []);
  if negb (Json.truthy usage_data) then Ok None
  else
    raw ← Json.getitem data "timestamp";
    iso ← Json.replace_Z raw;
    ts ← parse_timestamp iso;
    sid ← Json.get data "sessionId" (JStr "unknown");
    mdl ← Json.get message "model" (JStr "unknown");
    i ← Json.get usage_data "input_tokens" (JInt 0);
    o ← Json.get usage_data "output_tokens" (JInt 0);
    cc ← Json.get usage_data "cache_creation_input_tokens" (JInt 0);
    cr ← Json.get usage_data "cache_read_input_tokens" (JInt 0);
    Ok (Some (mk ts sid mdl (TokenUsage.mk i o cc cr))).

(** [except (KeyError, ValueError): return None]; any other exception
    leaves the function. *)
Definition from_dict (data : json)
    : result (option (t Datetime.any json json)) :=
  match from_dict_try data with
  | Raise e => if is_a KeyError e || is_a ValueError e then Ok None else Raise e
  | r => r
  end.

End FromDict.

End UsageEntry.

(** A usage record at its annotated types, its timestamp aware, and a
    record as the reader builds it. *)
Abbreviation Entry := (UsageEntry.t Datetime.t string Z).
Abbreviation RawEntry := (UsageEntry.t Datetime.any json json).

Module ModelStats.

Record t : Set := mk {
  model : string;
  total_input : Z;
  total_output : Z;
  total_cache_create : Z;
  total_cache_read : Z;
  call_count : Z;
}.

(** [ModelStats(model=m)] *)
Definition new (m : string) : t := mk m 0 0 0 0 0.

Definition add_usage (self : t) (usage : TokenUsage.t Z) : t :=
  mk (model self)
     (total_input self + TokenUsage.input_tokens usage)
     (total_output self + TokenUsage.output_tokens usage)
     (total_cache_create self + TokenUsage.cache_creation_input_tokens usage)
     (total_cache_read self + TokenUsage.cache_read_input_tokens usage)
     (call_count self + 1).

Definition total_tokens (self : t) : Z :=
  total_input self + total_output self +
  total_cache_create self + total_cache_read self.

End ModelStats.

(** [sum] over ints: from [0], adding from the left. *)
Definition int_sum (xs : list Z) : Z := foldl Z.add 0 xs.

Module PeriodStats.

Record t : Type := mk {
  start : Datetime.t;
  end_ : Datetime.t;
  models : Dict.t ModelStats.t;
  session_count : Z;
}.

Definition total_tokens (self : t) : Z :=
  int_sum (map ModelStats.total_tokens (Dict.values (models self))).

Definition total_calls (self : t) : Z :=
  int_sum (map ModelStats.call_count (Dict.values (models self))).

End PeriodStats.

(** ** parser.py *)

Section Filter.

Context {T S I : Type} `{!Timestamp T}.

(** One turn of the filtering loop: [continue] leaves [filtered] as it is,
    otherwise the entry is appended.  A bound that is [None] is falsy and
    its comparison is not made; a comparison that is made raises
    [TypeError] on a naive timestamp, the bounds being aware. *)
Definition filter_step (start end_ : option Datetime.t)
    (filtered : list (UsageEntry.t T S I)) (entry : UsageEntry.t T S I)
    : result (list (UsageEntry.t T S I)) :=
  let ts := datetime_of (UsageEntry.timestamp entry) in
  early ← match start with
          | Some s => Datetime.any_lt ts (Datetime.Aware s)
          | None => Ok false
          end;
  if early : bool then Ok filtered
  else
    late ← match end_ with
           | Some e => Datetime.any_gt ts (Datetime.Aware e)
           | None => Ok false
           end;
    if late : bool then Ok filtered else Ok (filtered ++ [entry]).

Fixpoint filter_loop (start end_ : option Datetime.t)
    (filtered entries : list (UsageEntry.t T S I))
    : result (list (UsageEntry.t T S I)) :=
  match entries with
  | [] => Ok filtered
  | entry :: entries' =>
      filtered ← filter_step start end_ filtered entry;
      filter_loop start end_ filtered entries'
  end.

Definition filter_by_period (entries : list (UsageEntry.t T S I))
    (days : option Z) (start end_ : option Datetime.t)
    : IO (list (UsageEntry.t T S I)) :=
  '(start, end_) ←
    match days with
    | Some d =>
        t0 ← now;
        delta ← lift (Datetime.timedelta_days d);
        s ← lift (Datetime.sub t0 delta);
        t1 ← now;
        mret (Some s, Some t1)
    | None => mret (start, end_)
    end;
  match start, end_ with
  | None, None => mret entries
  | _, _ => lift (filter_loop start end_ [] entries)
  end.

End Filter.

(** One turn of the aggregation loop, on the session set and the models
    dictionary of the statistics under construction. *)
Definition aggregate_step (acc : gset string * Dict.t ModelStats.t)
    (entry : Entry) : gset string * Dict.t ModelStats.t :=
  let '(sessions, models) := acc in
  let sessions := {[UsageEntry.session_id entry]} ∪ sessions in
  let name := UsageEntry.model entry in
  let models :=
    if negb (Dict.contains name models)
    then Dict.set name (ModelStats.new name) models
    else models in
  let models :=
    Dict.update name (λ m, ModelStats.add_usage m (UsageEntry.usage entry))
                models in
  (sessions, models).

Definition aggregate_stats (entries : list Entry) : IO PeriodStats.t :=
  match entries with
  | [] =>
      t ← now;
      mret (PeriodStats.mk t t [] 0)
  | first :: _ =>
      let stats :=
        PeriodStats.mk (UsageEntry.timestamp first)
                       (UsageEntry.timestamp (List.last entries first)) [] 0 in
      let loop := foldl aggregate_step (∅, PeriodStats.models stats) entries in
      let sessions := loop.1 in
      let models := loop.2 in
      mret (PeriodStats.mk (PeriodStats.start stats) (PeriodStats.end_ stats)
                           models (Z.of_nat (size sessions)))
  end.

(** ** calculator.py *)

Module ModelPricing.

Record t : Set := mk {
  input : float;
  output : float;
  cache_create : float;
  cache_read : float;
}.

End ModelPricing.

Definition PRICING : Dict.t ModelPricing.t := [
  ("claude-opus-4-5-20251101", ModelPricing.mk 15.0 75.0 18.75 1.50);
  ("claude-3-opus-20240229", ModelPricing.mk 15.0 75.0 18.75 1.50);
  ("claude-sonnet-4-5-20250929", ModelPricing.mk 3.0 15.0 3.75 0.30);
  ("claude-3-5-sonnet-20241022", ModelPricing.mk 3.0 15.0 3.75 0.30);
  ("claude-3-5-sonnet-20240620", ModelPricing.mk 3.0 15.0 3.75 0.30);
  ("claude-3-sonnet-20240229", ModelPricing.mk 3.0 15.0 3.75 0.30);
  ("claude-3-5-haiku-20241022", ModelPricing.mk 0.25 1.25 0.30 0.03);
  ("claude-3-haiku-20240307", ModelPricing.mk 0.25 1.25 0.30 0.03)
]%float.

Module PlanLimit.

Record t : Set := mk { tokens : Z; cost : float; messages : Z }.

End PlanLimit.

Definition PLAN_LIMITS : Dict.t PlanLimit.t := [
  ("pro", PlanLimit.mk 19000 18.0 250);
  ("max5", PlanLimit.mk 88000 35.0 1000);
  ("max20", PlanLimit.mk 220000 140.0 2000)
].

Section Calculator.

Context {unicode : Str.Unicode}.

Definition get_pricing (model : string) : ModelPricing.t :=
  match Dict.get model PRICING with
  | Some p => p
  | None =>
      let model_lower := Str.lower model in
      if Str.contains "opus" model_lower
      then ModelPricing.mk 15.0 75.0 18.75 1.50
      else if Str.contains "haiku" model_lower
      then ModelPricing.mk 0.25 1.25 0.30 0.03
      else ModelPricing.mk 3.0 15.0 3.75 0.30
  end.

Definition calculate_model_cost (stats : ModelStats.t) : result float :=
  let pricing := get_pricing (ModelStats.model stats) in
  let cost := 0.0%float in
  q ← Num.int_truediv (ModelStats.total_input stats) 1000000;
  let cost := (cost + q * ModelPricing.input pricing)%float in
  q ← Num.int_truediv (ModelStats.total_output stats) 1000000;
  let cost := (cost + q * ModelPricing.output pricing)%float in
  q ← Num.int_truediv (ModelStats.total_cache_create stats) 1000000;
  let cost := (cost + q * ModelPricing.cache_create pricing)%float in
  q ← Num.int_truediv (ModelStats.total_cache_read stats) 1000000;
  let cost := (cost + q * ModelPricing.cache_read pricing)%float in
  Ok cost.

(** The loop over [stats.models.items()], filling [costs]. *)
Fixpoint period_cost_loop (items : list (string * ModelStats.t))
    (costs : Dict.t float) : result (Dict.t float) :=
  match items with
  | [] => Ok costs
  | (model, model_stats) :: items' =>
      c ← calculate_model_cost model_stats;
      period_cost_loop items' (Dict.set model c costs)
  end.

Definition calculate_period_cost (stats : PeriodStats.t)
    : result (Dict.t float) :=
  period_cost_loop (PeriodStats.models stats) [].

Definition total_cost (stats : PeriodStats.t) : result Num.t :=
  costs ← calculate_period_cost stats;
  Num.sum (map Num.Float (Dict.values costs)).

Definition get_model_tier (model : string) : string :=
  let model_lower := Str.lower model in
  if Str.contains "opus" model_lower then "Opus"
  else if Str.contains "haiku" model_lower then "Haiku"
  else "Sonnet".

End Calculator.

(** The dictionary [estimate_plan_usage] returns. *)
Module PlanUsage.

Record t : Set := mk {
  plan : string;
  cost_used : Num.t;
  cost_limit : float;
  cost_percent : Num.t;
  calls_used : Z;
  calls_limit : Z;
  calls_percent : Num.t;
}.

End PlanUsage.

(** [(used / limit) * 100] *)
Definition percent_of (used limit : Num.t) : result Num.t :=
  q ← Num.truediv used limit;
  Num.mul (Num.Float q) (Num.Int 100).

Section PlanEstimate.

Context {unicode : Str.Unicode}.

(** [estimate_plan_usage] reads the module-level table [PLAN_LIMITS]; the
    table is made an argument here, so that the guards on a zero limit can
    be exercised on plans other than the three it holds. *)
Definition estimate_plan_usage_in (plan_limits : Dict.t PlanLimit.t)
    (stats : PeriodStats.t) (plan : string) : result (option PlanUsage.t) :=
  match Dict.get plan plan_limits with
  | None => Ok None
  | Some limits =>
      cost ← total_cost stats;
      cost_percent ←
        (if Num.float_gt_zero (PlanLimit.cost limits)
         then percent_of cost (Num.Float (PlanLimit.cost limits))
         else Ok (Num.Int 0));
      calls_percent ←
        (if 0 <? PlanLimit.messages limits
         then percent_of (Num.Int (PeriodStats.total_calls stats))
                         (Num.Int (PlanLimit.messages limits))
         else Ok (Num.Int 0));
      Ok (Some (PlanUsage.mk plan cost (PlanLimit.cost limits) cost_percent
                  (PeriodStats.total_calls stats) (PlanLimit.messages limits)
                  calls_percent))
  end.

Definition estimate_plan_usage : PeriodStats.t → string →
    result (option PlanUsage.t) :=
  estimate_plan_usage_in PLAN_LIMITS.

End PlanEstimate.

(** ** parser.py: reading the log files *)

(** What reading a file hands to the loop [for line in f]: the lines it
    yields, and the exception, if any, that takes the place of the end of
    the file -- raised by [open] (then no line was read) or by a later
    read: an [OSError] of the system, or the [UnicodeDecodeError] of bytes
    that are not UTF-8. *)
Record Reading : Type := mkReading {
  lines_read : list string;
  read_error : option exn;
}.

(** The files the reader sees: whether a directory exists, the files
    under it that match "**/*.jsonl", and the reading of a file. *)
Record FileSystem : Type := mkFileSystem {
  path_exists : string → bool;
  glob_jsonl : string → list string;
  read_file : string → Reading;
}.

(** [sorted(entries, key=lambda e: e.timestamp)].  A stable sort has one
    possible result; it is computed here by insertion, each entry going in
    front of the first one that is not earlier than it.  A comparison of a
    naive with an aware timestamp raises [TypeError], and a sort of
    entries of both kinds makes one. *)
Section SortedByTimestamp.

Context {T S I : Type} `{!Timestamp T}.

Fixpoint insert_by_timestamp (e : UsageEntry.t T S I)
    (sorted : list (UsageEntry.t T S I)) : result (list (UsageEntry.t T S I)) :=
  match sorted with
  | [] => Ok [e]
  | e' :: rest =>
      earlier ← Datetime.any_lt (datetime_of (UsageEntry.timestamp e'))
                                (datetime_of (UsageEntry.timestamp e));
      if earlier : bool
      then rest' ← insert_by_timestamp e rest; Ok (e' :: rest')
      else Ok (e :: sorted)
  end.

Fixpoint sorted_by_timestamp (entries : list (UsageEntry.t T S I))
    : result (list (UsageEntry.t T S I)) :=
  match entries with
  | [] => Ok []
  | e :: entries' =>
      sorted ← sorted_by_timestamp entries';
      insert_by_timestamp e sorted
  end.

End SortedByTimestamp.

Section Reader.

Context {unicode : Str.Unicode}.

(** What the reader takes from outside: the files, [json.loads] (the
    value it decodes, or the exception it raises: [JSONDecodeError] on
    text that is not JSON, and others, such as the [ValueError] of an
    integer of too many digits), [datetime.fromisoformat], and the default
    data directory [Path.home() / ".claude" / "projects"]. *)
Variable fs : FileSystem.
Variable json_loads : string → result json.
Variable fromisoformat : string → option Datetime.any.
Variable CLAUDE_DATA_DIR : string.

(** [base_dir or CLAUDE_DATA_DIR]: a path is always truthy. *)
Definition find_jsonl_files (base_dir : option string) : list string :=
  let base := match base_dir with Some d => d | None => CLAUDE_DATA_DIR end in
  if negb (path_exists fs base) then [] else glob_jsonl fs base.

(** One turn of the loop over the lines: the entries it yields, or the
    exception that the inner handler does not catch. *)
Definition parse_line (line : string) : result (list RawEntry) :=
  let line := Str.strip line in
  if String.eqb line "" then Ok []
  else
    match (data ← json_loads line;
           entry ← UsageEntry.from_dict fromisoformat data;
           match entry with
           | Some e => Ok [e]
           | None => Ok []
           end)
    with
    | Raise e => if is_a JSONDecodeError e then Ok [] else Raise e
    | yielded => yielded
    end.

(** The loop over the lines, as far as it gets: the entries yielded, and
    the exception, if any, that ended it. *)
Fixpoint parse_lines (lines : list string) : list RawEntry * option exn :=
  match lines with
  | [] => ([], None)
  | line :: lines' =>
      match parse_line line with
      | Ok yielded =>
          let rest := parse_lines lines' in (yielded ++ rest.1, rest.2)
      | Raise e => ([], Some e)
      end
  end.

(** The generator, run to its end: all it yields, or the exception that
    leaves it.  An exception of the loop, or else the one that ended the
    reading, meets the handler [except (IOError, OSError): return]. *)
Definition parse_jsonl_file (filepath : string) : result (list RawEntry) :=
  let reading := read_file fs filepath in
  let loop := parse_lines (lines_read reading) in
  match (match loop.2 with Some e => Some e | None => read_error reading end)
  with
  | None => Ok loop.1
  | Some e => if is_a OSError e then Ok loop.1 else Raise e
  end.

(** The loop [entries.extend(parse_jsonl_file(filepath))]. *)
Fixpoint extend_all (files : list string) (entries : list RawEntry)
    : result (list RawEntry) :=
  match files with
  | [] => Ok entries
  | filepath :: files' =>
      parsed ← parse_jsonl_file filepath;
      extend_all files' (entries ++ parsed)
  end.

Definition parse_all_files (base_dir : option string)
    : result (list RawEntry) :=
  entries ← extend_all (find_jsonl_files base_dir) [];
  sorted_by_timestamp entries.

End Reader.

(** ** The tables of the specification

    The rates and limits as the specification tabulates them, by tier and
    by plan; the theorems below compare the program with them. *)

Definition opus_rates : ModelPricing.t := ModelPricing.mk 15.0 75.0 18.75 1.50.
Definition haiku_rates : ModelPricing.t := ModelPricing.mk 0.25 1.25 0.30 0.03.
Definition sonnet_rates : ModelPricing.t := ModelPricing.mk 3.0 15.0 3.75 0.30.

Definition tier_rates (tier : string) : option ModelPricing.t :=
  if String.eqb tier "Opus" then Some opus_rates
  else if String.eqb tier "Haiku" then Some haiku_rates
  else if String.eqb tier "Sonnet" then Some sonnet_rates
  else None.

(** Cost ceiling and call ceiling of a plan. *)
Definition plan_ceilings (plan : string) : option (float * Z) :=
  if String.eqb plan "pro" then Some (18.0%float, 250)
  else if String.eqb plan "max5" then Some (35.0%float, 1000)
  else if String.eqb plan "max20" then Some (140.0%float, 2000)
  else None.

(** A case-insensitive occurrence in ASCII text: some stretch of [hay]
    reads [needle] once its letters A-Z are lowered. *)
Definition occurs_nocase (needle hay : string) : Prop :=
  ∃ pre mid post,
    hay = String.append pre (String.append mid post) ∧
    Str.ascii_lower mid = needle.

(** The window of the period filter, in the specification's words: at or
    after [start] when it is given, at or before [end_] when it is given. *)
Definition in_window (start end_ : option Datetime.t) (entry : Entry) : Prop :=
  match start with
  | Some s => Datetime.le s (UsageEntry.timestamp entry)
  | None => True
  end ∧
  match end_ with
  | Some e => Datetime.le (UsageEntry.timestamp entry) e
  | None => True
  end.

#[global] Instance datetime_le_dec a b : Decision (Datetime.le a b) :=
  Z.le_dec (Datetime.instant a) (Datetime.instant b).

#[global] Instance in_window_dec start end_ entry :
    Decision (in_window start end_ entry) :=
  and_dec
    match start as o
      return Decision match o with
                      | Some s => Datetime.le s (UsageEntry.timestamp entry)
                      | None => True
                      end
    with
    | Some s => datetime_le_dec s (UsageEntry.timestamp entry)
    | None => True_dec
    end
    match end_ as o
      return Decision match o with
                      | Some e => Datetime.le (UsageEntry.timestamp entry) e
                      | None => True
                      end
    with
    | Some e => datetime_le_dec (UsageEntry.timestamp entry) e
    | None => True_dec
    end.

(** ** Auxiliary notions of the proofs *)

(** What [sum] meets on its way over floats: the int [0] it starts from,
    or a float. *)
Definition zero_or_float (x : Num.t) : Prop :=
  match x with Num.Int n => n = 0 | Num.Float _ => True end.

(** Counters small enough for their quotient by a million to be a double. *)
Definition counters_in_range (ms : ModelStats.t) : Prop :=
  Z.abs (ModelStats.total_input ms) < Num.overflow_threshold * 1000000 ∧
  Z.abs (ModelStats.total_output ms) < Num.overflow_threshold * 1000000 ∧
  Z.abs (ModelStats.total_cache_create ms) < Num.overflow_threshold * 1000000 ∧
  Z.abs (ModelStats.total_cache_read ms) < Num.overflow_threshold * 1000000.

(** The sum of a quantity read off each model's statistics. *)
Definition total (measure : ModelStats.t → Z)
    (models : Dict.t ModelStats.t) : Z :=
  int_sum (map measure (Dict.values models)).

(** [filter_by_period(filter_by_period(entries, ...), ...)]: the filter
    applied to its own result, one call after the other. *)
Definition filter_twice (entries : list Entry) (days : option Z)
    (start end_ : option Datetime.t) : IO (list Entry) :=
  once ← filter_by_period entries days start end_;
  filter_by_period once days start end_.

(** The day-count [d] cannot be taken off the clock reading of [w]: it
    is beyond the 999999999 days of a [timedelta], or the start it gives
    is out of the years 1 to 9999. *)
Definition days_overflow (w : World) (d : Z) : Prop :=
  999999999 < Z.abs d ∨
  ¬ (0 ≤ Datetime.wall (clock w (ticks w)) - d * Datetime.us_per_day
       < Datetime.max_wall).

#[global] Instance days_overflow_dec w d : Decision (days_overflow w d).
Proof. unfold days_overflow. apply _. Defined.

(** The entries of one model, the sum of one of their counters, and the
    statistics the aggregation should hold for that model. *)
Definition entries_of (name : string) (entries : list Entry) : list Entry :=
  filter (λ e, UsageEntry.model e = name) entries.

Definition counter_sum (counter : TokenUsage.t Z → Z) (entries : list Entry) : Z :=
  int_sum (map (λ e, counter (UsageEntry.usage e)) entries).

Definition model_summary (name : string) (entries : list Entry) : ModelStats.t :=
  let mine := entries_of name entries in
  ModelStats.mk name
    (counter_sum TokenUsage.input_tokens mine)
    (counter_sum TokenUsage.output_tokens mine)
    (counter_sum TokenUsage.cache_creation_input_tokens mine)
    (counter_sum TokenUsage.cache_read_input_tokens mine)
    (Z.of_nat (length mine)).

(** A model's statistics after the usages of [entries] were added to it. *)
Definition absorb (m : ModelStats.t) (entries : list Entry) : ModelStats.t :=
  foldl (λ m e, ModelStats.add_usage m (UsageEntry.usage e)) m entries.

(** The names of a list, each at its first occurrence. *)
Fixpoint first_occurrences (names : list string) : list string :=
  match names with
  | [] => []
  | name :: names' => name :: filter (λ n, n ≠ name) (first_occurrences names')
  end.

(** Entries in the order of time. *)
Definition time_sorted {T S I} `{!Timestamp T}
    (entries : list (UsageEntry.t T S I)) : Prop :=
  StronglySorted
    (λ a b, Datetime.any_le (datetime_of (UsageEntry.timestamp a))
                            (datetime_of (UsageEntry.timestamp b))) entries.

(** The entries with a given instant as timestamp. *)
Definition at_instant {T S I} `{!Timestamp T} (t : Z)
    (entries : list (UsageEntry.t T S I)) : list (UsageEntry.t T S I) :=
  filter (λ e, Datetime.key (datetime_of (UsageEntry.timestamp e)) = t) entries.

(** Entries with a naive timestamp, with an aware one, and a list that
    holds both. *)
Definition naive {T S I} `{!Timestamp T} (e : UsageEntry.t T S I) : Prop :=
  Datetime.is_aware (datetime_of (UsageEntry.timestamp e)) = false.
Definition aware {T S I} `{!Timestamp T} (e : UsageEntry.t T S I) : Prop :=
  Datetime.is_aware (datetime_of (UsageEntry.timestamp e)) = true.
Definition mixed_timestamps {T S I} `{!Timestamp T}
    (entries : list (UsageEntry.t T S I)) : Prop :=
  Exists naive entries ∧ Exists aware entries.

(** The decoded lines on which record parsing fails: what a method is
    called on is not of the type that has the method. *)
Inductive ill_shaped (fromisoformat : string → option Datetime.any)
    : json → Prop :=
  | line_not_dict data :
      (∀ o, data ≠ JObj o) → ill_shaped fromisoformat data
  | message_not_dict o message :
      Dict.get "message" o = Some message →
      (∀ m, message ≠ JObj m) →
      ill_shaped fromisoformat (JObj o)
  | timestamp_not_str o m usage_data raw :
      Dict.get "message" o = Some (JObj m) →
      Dict.get "usage" m = Some usage_data →
      Json.truthy usage_data = true →
      Dict.get "timestamp" o = Some raw →
      (∀ s, raw ≠ JStr s) →
      ill_shaped fromisoformat (JObj o)
  | usage_not_dict o m usage_data raw ts :
      Dict.get "message" o = Some (JObj m) →
      Dict.get "usage" m = Some usage_data →
      Json.truthy usage_data = true →
      (∀ u, usage_data ≠ JObj u) →
      Dict.get "timestamp" o = Some (JStr raw) →
      fromisoformat (Str.replace_char "Z"%char "+00:00" raw) = Some ts →
      ill_shaped fromisoformat (JObj o).

(** The record that parsing builds from a line [o] with message [m],
    usage [u] and timestamp [ts]: a field that is missing takes its
    default. *)
Definition record_of (o m u : Dict.t json) (ts : Datetime.any) : RawEntry :=
  UsageEntry.mk ts
    (default (JStr "unknown") (Dict.get "sessionId" o))
    (default (JStr "unknown") (Dict.get "model" m))
    (TokenUsage.mk
       (default (JInt 0) (Dict.get "input_tokens" u))
       (default (JInt 0) (Dict.get "output_tokens" u))
       (default (JInt 0) (Dict.get "cache_creation_input_tokens" u))
       (default (JInt 0) (Dict.get "cache_read_input_tokens" u))).

Section Lines.

Context {unicode : Str.Unicode}.
Variable json_loads : string → result json.
Variable fromisoformat : string → option Datetime.any.

(** A line that the reader passes over: blank, or not JSON. *)
Definition skipped_line (line : string) : Prop :=
  Str.strip line = EmptyString ∨
  json_loads (Str.strip line) = Raise JSONDecodeError.

(** A line on which the turn of the loop ends with the exception [e]:
    the line is not blank, and [e] is raised by the decoding, without
    being a [JSONDecodeError], or by the parsing of the decoded value. *)
Definition line_raises (line : string) (e : exn) : Prop :=
  Str.strip line ≠ EmptyString ∧ e ≠ JSONDecodeError ∧
  (json_loads (Str.strip line) = Raise e ∨
   ∃ data, json_loads (Str.strip line) = Ok data ∧
           UsageEntry.from_dict fromisoformat data = Raise e).

Definition line_fails (line : string) : Prop := ∃ e, line_raises line e.

(** The record that a line of a log file stands for, if any: the line is
    not blank, decodes, and parses to a record. *)
Definition line_record (line : string) : option RawEntry :=
  if decide (Str.strip line = EmptyString) then None
  else
    match json_loads (Str.strip line) with
    | Ok data =>
        match UsageEntry.from_dict fromisoformat data with
        | Ok (Some e) => Some e
        | _ => None
        end
    | Raise _ => None
    end.

End Lines.

(** ** Sample data *)

(** 2025-01-01T00:00:00 (day 739252 of the calendar), as a wall clock. *)
Definition new_year_2025 : Z := 739251 * Datetime.us_per_day.

(** A clock in UTC that advances by a microsecond from one reading to the
    next, and one that stands still. *)
Definition ticking_clock (n : nat) : Datetime.t :=
  Datetime.mk (new_year_2025 + Z.of_nat n) 0.
Definition frozen_clock (n : nat) : Datetime.t :=
  Datetime.mk new_year_2025 0.

Definition sample_entry (ts : Z) (session model : string) (tokens : Z) : Entry :=
  UsageEntry.mk (Datetime.mk ts 0) session model (TokenUsage.mk tokens tokens 0 0).

(** Two records of the last day of 2024: one exactly a day before
    [new_year_2025], one two microseconds later. *)
Definition day_old : list Entry := [
  sample_entry (new_year_2025 - Datetime.us_per_day) "s1" "claude-3-opus-20240229" 10;
  sample_entry (new_year_2025 - Datetime.us_per_day + 2) "s2" "claude-3-haiku-20240307" 20
].

(** Three calls to a Haiku model, a million tokens in and a million out
    each. *)
Definition haiku_calls : list Entry :=
  let call ts :=
    UsageEntry.mk (Datetime.mk (new_year_2025 + ts) 0) "s1"
      "claude-3-5-haiku-20241022" (TokenUsage.mk 1000000 1000000 0 0) in
  [call 1; call 2; call 3].

(** A period in which one Opus model produced two million output tokens
    over three calls (150 dollars), and a table with a plan that costs
    nothing. *)
Definition heavy_period : PeriodStats.t :=
  PeriodStats.mk (Datetime.mk new_year_2025 0) (Datetime.mk new_year_2025 0)
    [("claude-3-opus-20240229",
      ModelStats.mk "claude-3-opus-20240229" 0 2000000 0 0 3)] 1.
Definition free_plan : Dict.t PlanLimit.t := [("free", PlanLimit.mk 0 0.0 0)].


(** A period with two models: a million Opus output tokens (75 dollars)
    and a million Haiku input tokens (a quarter). *)
Definition two_models : PeriodStats.t :=
  PeriodStats.mk (Datetime.mk new_year_2025 0) (Datetime.mk new_year_2025 0)
    [("claude-3-opus-20240229",
      ModelStats.mk "claude-3-opus-20240229" 0 1000000 0 0 1);
     ("claude-3-haiku-20240307",
      ModelStats.mk "claude-3-haiku-20240307" 1000000 0 0 0 2)] 1.

(** Three records: three days, a day and a half, and an hour before
    [new_year_2025]. *)
Definition last_days : list Entry := [
  sample_entry (new_year_2025 - 3 * Datetime.us_per_day) "s1"
    "claude-3-opus-20240229" 10;
  sample_entry (new_year_2025 - 129600 * 1000000) "s1"
    "claude-3-haiku-20240307" 20;
  sample_entry (new_year_2025 - 3600 * 1000000) "s2"
    "claude-3-opus-20240229" 30
].

(** A stand-in for [str.lower] and [str.strip]: on ASCII text what Python
    does, and beyond ASCII a [lower] that knows the Kelvin sign (U+212A,
    the bytes E2 84 AA) and lowers it to "k". *)
Definition kelvin_sign : string :=
  String (ascii_of_nat 226) (String (ascii_of_nat 132)
    (String (ascii_of_nat 170) EmptyString)).

Fixpoint kelvin_lower (s : string) : string :=
  match s with
  | EmptyString => EmptyString
  | String c s' =>
      let rest := kelvin_lower s' in
      if Str.starts_with kelvin_sign s
      then String "k" (String.substring 2 (String.length rest - 2) rest)
      else String (Str.lower_char c) rest
  end.

Definition sample_text : Str.Unicode :=
  {| Str.lower s := if Str.is_ascii s then Str.ascii_lower s else kelvin_lower s;
     Str.strip s := Str.ascii_strip s;
     Str.lower_ascii s Hs :=
       eq_ind_r (x := true)
         (λ b : bool, (if b then Str.ascii_lower s else kelvin_lower s)
                      = Str.ascii_lower s) eq_refl Hs;
     Str.strip_ascii s _ := eq_refl |}.

(** A stand-in for [datetime.fromisoformat] that knows one date, with its
    offset and without. *)
Definition fromisoformat_2025 (s : string) : option Datetime.any :=
  if String.eqb s "2025-01-01T00:00:00+00:00"
  then Some (Datetime.Aware (Datetime.mk new_year_2025 0))
  else if String.eqb s "2025-01-01T00:00:00"
  then Some (Datetime.Naive new_year_2025)
  else None.

(** Decoded log lines: a summary line, a user message, an assistant message
    with an empty usage, and an assistant message with usage. *)
Definition summary_line : Dict.t json :=
  [("type", JStr "summary"); ("summary", JStr "Refactor the parser")].
Definition user_line : Dict.t json :=
  [("timestamp", JStr "2025-01-01T00:00:00Z");
   ("message", JObj [("role", JStr "user"); ("content", JStr "hello")])].
Definition empty_usage_line : Dict.t json :=
  [("timestamp", JStr "2025-01-01T00:00:00Z");
   ("message", JObj [("model", JStr "claude-3-opus-20240229");
                     ("usage", JObj [])])].
Definition null_usage_line : Dict.t json :=
  [("timestamp", JStr "2025-01-01T00:00:00Z");
   ("message", JObj [("usage", JNull)])].
Definition assistant_line : Dict.t json :=
  [("timestamp", JStr "2025-01-01T00:00:00Z");
   ("sessionId", JStr "s1");
   ("message", JObj [("model", JStr "claude-3-opus-20240229");
                     ("usage", JObj [("input_tokens", JInt 12);
                                     ("output_tokens", JInt 34)])])].

(** An assistant message whose timestamp has no offset. *)
Definition naive_line : Dict.t json :=
  [("timestamp", JStr "2025-01-01T00:00:00");
   ("message", JObj [("usage", JObj [("input_tokens", JInt 5)])])].

(** A line with usage and no timestamp. *)
Definition undated_line : Dict.t json :=
  [("message", JObj [("usage", JObj [("input_tokens", JInt 12)])])].

(** The records of [assistant_line] and [naive_line]. *)
Definition assistant_record : RawEntry :=
  UsageEntry.mk (Datetime.Aware (Datetime.mk new_year_2025 0)) (JStr "s1")
    (JStr "claude-3-opus-20240229")
    (TokenUsage.mk (JInt 12) (JInt 34) (JInt 0) (JInt 0)).
Definition naive_record : RawEntry :=
  UsageEntry.mk (Datetime.Naive new_year_2025) (JStr "unknown")
    (JStr "unknown") (TokenUsage.mk (JInt 5) (JInt 0) (JInt 0) (JInt 0)).

(** Log files for the reader.  [sample_loads] stands in for
    [json.loads] on the few lines of these files: it decodes four of
    them, fails on one as [json.loads] does on an integer of more than
    4300 digits, and refuses the others as not JSON. *)
Definition newline : string := String (ascii_of_nat 10) EmptyString.

Definition sample_loads (line : string) : result json :=
  if String.eqb line "assistant-line" then Ok (JObj assistant_line)
  else if String.eqb line "user-line" then Ok (JObj user_line)
  else if String.eqb line "naive-line" then Ok (JObj naive_line)
  else if String.eqb line "text-message-line"
  then Ok (JObj [("message", JStr "hello")])
  else if String.eqb line "long-integer-line" then Raise ValueError
  else Raise JSONDecodeError.

Definition sample_files : FileSystem :=
  mkFileSystem
    (λ path, String.eqb path "/data" || String.eqb path "/mixed"
             || String.eqb path "/zones")
    (λ base, if String.eqb base "/data"
             then ["/data/a.jsonl"; "/data/locked.jsonl"; "/data/cut.jsonl"]
             else if String.eqb base "/mixed"
             then ["/data/a.jsonl"; "/data/bad.jsonl"]
             else if String.eqb base "/zones"
             then ["/data/a.jsonl"; "/data/naive.jsonl"]
             else [])
    (λ path,
       if String.eqb path "/data/a.jsonl"
       then mkReading [String.append "user-line" newline;
                       newline;
                       String.append "{truncated" newline;
                       String.append "  assistant-line " newline] None
       else if String.eqb path "/data/cut.jsonl"
       then mkReading [String.append "assistant-line" newline] (Some OSError)
       else if String.eqb path "/data/bad.jsonl"
       then mkReading [String.append "assistant-line" newline;
                       String.append "text-message-line" newline] None
       else if String.eqb path "/data/naive.jsonl"
       then mkReading [String.append "naive-line" newline] None
       else if String.eqb path "/data/latin1.jsonl"
       then mkReading [String.append "assistant-line" newline]
                      (Some UnicodeDecodeError)
       else if String.eqb path "/data/digits.jsonl"
       then mkReading [String.append "assistant-line" newline;
                       String.append "long-integer-line" newline;
                       String.append "text-message-line" newline] None
       else mkReading [] (Some OSError)).

(** * Properties *)

(** ** Strings *)

Section StrFacts.

Local Open Scope string_scope.

Lemma starts_with_app (n h : string) :
  Str.starts_with n h = true ↔ ∃ post, h = String.append n post.
Proof.
  revert h. induction n as [|a n IH]; intros h; simpl.
  - split; [intros _; exists h; reflexivity | reflexivity].
  - destruct h as [|b h]; simpl.
    + split; [done | intros [post H]; discriminate H].
    + rewrite andb_true_iff, IH, Ascii.eqb_eq.
      split; [intros [-> [post ->]] | intros [post H]].
      * by exists post.
      * injection H as -> ->. split; [done | by exists post].
Qed.

Lemma contains_substring (n h : string) :
  Str.contains n h = true ↔ Str.is_substring n h.
Proof.
  unfold Str.is_substring. induction h as [|c h IH].
  - simpl. rewrite orb_false_r, starts_with_app. split.
    + intros [post H]. by exists EmptyString, post.
    + intros ([|? ?] & post & H); [by exists post | discriminate H].
  - cbn [Str.contains]. rewrite orb_true_iff, starts_with_app, IH. split.
    + intros [[post H] | (pre & post & H)].
      * by exists EmptyString, post.
      * exists (String c pre), post. simpl. by rewrite H.
    + intros ([|c' pre] & post & H); simpl in H.
      * left. by exists post.
      * right. exists pre, post. by injection H.
Qed.

Lemma contains_not_substring (n h : string) :
  Str.contains n h = false ↔ ¬ Str.is_substring n h.
Proof. rewrite <- contains_substring. by destruct (Str.contains n h). Qed.

Lemma lower_app (a b : string) :
  Str.ascii_lower (String.append a b) =
  String.append (Str.ascii_lower a) (Str.ascii_lower b).
Proof. induction a as [|c a IH]; simpl; [done | by rewrite IH]. Qed.

(** Lowering ASCII text works character by character, so a split of the
    lowered string comes from a split of the string. *)
Lemma lower_split (s a b : string) :
  Str.ascii_lower s = String.append a b →
  ∃ a' b', s = String.append a' b' ∧
           Str.ascii_lower a' = a ∧ Str.ascii_lower b' = b.
Proof.
  revert s. induction a as [|c a IH]; intros s H; simpl in H.
  - by exists EmptyString, s.
  - destruct s as [|c' s]; simpl in H; [discriminate H|].
    injection H as Hc Hs. destruct (IH _ Hs) as (a' & b' & -> & Ha & Hb).
    exists (String c' a'), b'. simpl. by rewrite Hc, Ha.
Qed.

Lemma substring_lower_nocase (n s : string) :
  Str.is_substring n (Str.ascii_lower s) ↔ occurs_nocase n s.
Proof.
  unfold Str.is_substring, occurs_nocase. split.
  - intros (pre & post & H).
    destruct (lower_split _ _ _ H) as (pre' & rest & -> & Hpre & Hrest).
    destruct (lower_split _ _ _ Hrest) as (mid & post' & -> & Hmid & Hpost).
    by exists pre', mid, post'.
  - intros (pre & mid & post & -> & Hmid).
    exists (Str.ascii_lower pre), (Str.ascii_lower post).
    by rewrite !lower_app, Hmid.
Qed.

End StrFacts.

(** ** Dictionaries *)

Section DictFacts.

Context {V : Type}.
Implicit Types (d : Dict.t V) (k : string) (v : V).

Lemma dict_get_In k v d : Dict.get k d = Some v → In (k, v) d.
Proof.
  induction d as [|[k' v'] d IH]; simpl; [done|].
  destruct (String.eqb_spec k k') as [->|Hne].
  - intros [= ->]. by left.
  - intros H. right. by apply IH.
Qed.

Lemma dict_contains_get k d :
  Dict.contains k d = true ↔ is_Some (Dict.get k d).
Proof.
  unfold Dict.contains. destruct (Dict.get k d); split; try done.
Qed.

Lemma dict_contains_set k v d : Dict.contains k (Dict.set k v d) = true.
Proof.
  unfold Dict.contains. induction d as [|[k' v'] d IH]; simpl.
  - by rewrite String.eqb_refl.
  - destruct (String.eqb k k') eqn:Hk; simpl; by rewrite Hk.
Qed.

(** The key that the aggregation loop is about to update is in the
    dictionary: the lookup [stats.models[entry.model]] cannot fail. *)
Lemma dict_contains_ensured k v d :
  Dict.contains k (if negb (Dict.contains k d) then Dict.set k v d else d)
  = true.
Proof.
  destruct (Dict.contains k d) eqn:Hk; simpl; [done|].
  apply dict_contains_set.
Qed.

End DictFacts.

(** ** Pricing and tiers *)

Ltac classify model :=
  destruct (Str.contains "opus" (Str.lower model)) eqn:?Hopus;
  destruct (Str.contains "haiku" (Str.lower model)) eqn:?Hhaiku;
  repeat match goal with
         | H : Str.contains _ _ = true |- _ => apply contains_substring in H
         | H : Str.contains _ _ = false |- _ => apply contains_not_substring in H
         end.

Section Pricing.

Context {unicode : Str.Unicode}.

Lemma get_pricing_listed (model : string) (p : ModelPricing.t) :
  Dict.get model PRICING = Some p → get_pricing model = p.
Proof. intros H. unfold get_pricing. by rewrite H. Qed.

Lemma get_pricing_unlisted (model : string) :
  Dict.get model PRICING = None →
  get_pricing model =
    if Str.contains "opus" (Str.lower model) then opus_rates
    else if Str.contains "haiku" (Str.lower model) then haiku_rates
    else sonnet_rates.
Proof. intros H. unfold get_pricing. by rewrite H. Qed.

(** C1. The pricing lookup answers with the table's entry for a name the
    table lists.  For any other name it goes by the lowercase form of the
    name, as [str.lower] gives it: the Opus rates (15.0 / 75.0 / 18.75 /
    1.50) when it contains "opus", else the Haiku rates (0.25 / 1.25 /
    0.30 / 0.03) when it contains "haiku", else -- whatever the name is --
    the Sonnet rates (3.0 / 15.0 / 3.75 / 0.30).  For a name in ASCII the
    lowercase form contains a word exactly when the name contains it in
    some mix of upper and lower case. *)
Theorem get_pricing_lookup (model : string) :
  (∀ p, Dict.get model PRICING = Some p → get_pricing model = p) ∧
  (Dict.get model PRICING = None →
     (Str.is_substring "opus" (Str.lower model) →
        get_pricing model = ModelPricing.mk 15.0 75.0 18.75 1.50) ∧
     (¬ Str.is_substring "opus" (Str.lower model) →
      Str.is_substring "haiku" (Str.lower model) →
        get_pricing model = ModelPricing.mk 0.25 1.25 0.30 0.03) ∧
     (¬ Str.is_substring "opus" (Str.lower model) →
      ¬ Str.is_substring "haiku" (Str.lower model) →
        get_pricing model = ModelPricing.mk 3.0 15.0 3.75 0.30)) ∧
  (Str.is_ascii model = true →
   ∀ word, Str.is_substring word (Str.lower model) ↔ occurs_nocase word model).
Proof.
  split; [apply get_pricing_listed|]. split.
  - intros Hmiss. rewrite (get_pricing_unlisted model Hmiss).
    classify model; repeat split; intros; first [done | tauto].
  - intros Hascii word. rewrite (Str.lower_ascii model Hascii).
    apply substring_lower_nocase.
Qed.

Lemma get_model_tier_classify (model : string) :
  get_model_tier model =
    if Str.contains "opus" (Str.lower model) then "Opus"
    else if Str.contains "haiku" (Str.lower model) then "Haiku"
    else "Sonnet".
Proof. reflexivity. Qed.

(** The table of exact names agrees with the classification by substring:
    its keys are lowercase ASCII, each under the rates of the tier its
    own name classifies to. *)
Lemma get_pricing_classified (model : string) :
  get_pricing model =
    if Str.contains "opus" (Str.lower model) then opus_rates
    else if Str.contains "haiku" (Str.lower model) then haiku_rates
    else sonnet_rates.
Proof.
  destruct (Dict.get model PRICING) as [p|] eqn:Hget.
  - rewrite (get_pricing_listed model p Hget).
    apply dict_get_In in Hget. simpl in Hget.
    repeat (destruct Hget as [[= <- <-] | Hget];
            [by rewrite Str.lower_ascii by reflexivity|]).
    destruct Hget.
  - apply (get_pricing_unlisted model Hget).
Qed.

(** C8. The tier label is one of "Opus", "Haiku", "Sonnet", chosen by the
    classification of the pricing lookup (Sonnet when neither substring
    occurs in the lowercase form of the name), and the rates the pricing
    lookup returns are always those of the tier so named -- also for the
    names the pricing table lists, whose entries the label never reads. *)
Theorem pricing_is_rate_of_tier (model : string) :
  (get_model_tier model = "Opus" ∨ get_model_tier model = "Haiku" ∨
   get_model_tier model = "Sonnet") ∧
  (get_model_tier model = "Opus" ↔
     Str.is_substring "opus" (Str.lower model)) ∧
  (get_model_tier model = "Haiku" ↔
     ¬ Str.is_substring "opus" (Str.lower model) ∧
     Str.is_substring "haiku" (Str.lower model)) ∧
  (get_model_tier model = "Sonnet" ↔
     ¬ Str.is_substring "opus" (Str.lower model) ∧
     ¬ Str.is_substring "haiku" (Str.lower model)) ∧
  tier_rates (get_model_tier model) = Some (get_pricing model).
Proof.
  rewrite get_pricing_classified, get_model_tier_classify.
  classify model; (split; [|split; [|split; [|split]]]);
    first [reflexivity | split; first [done | tauto] | auto].
Qed.

(** C10. A name the pricing table does not list and whose lowercase form
    contains both "opus" and "haiku" is priced at the Opus rates and
    labelled "Opus": in both functions the test for "opus" comes first. *)
Theorem opus_before_haiku (model : string) :
  Dict.get model PRICING = None →
  Str.is_substring "opus" (Str.lower model) →
  Str.is_substring "haiku" (Str.lower model) →
  get_pricing model = ModelPricing.mk 15.0 75.0 18.75 1.50 ∧
  get_model_tier model = "Opus".
Proof.
  intros Hmiss Hopus Hhaiku.
  rewrite (get_pricing_unlisted model Hmiss), get_model_tier_classify.
  apply contains_substring in Hopus. by rewrite Hopus.
Qed.

End Pricing.

(** The lookup at sample names, among them one that spells "haiku" with
    the Kelvin sign, which [str.lower] turns into "k". *)
Section PricingSamples.

#[local] Existing Instance sample_text.

Lemma get_pricing_lookup_witness :
  get_pricing "claude-3-haiku-20240307" = ModelPricing.mk 0.25 1.25 0.30 0.03 ∧
  get_pricing "Claude-OPUS-next" = ModelPricing.mk 15.0 75.0 18.75 1.50 ∧
  get_pricing "claude-5-HAIKU" = ModelPricing.mk 0.25 1.25 0.30 0.03 ∧
  get_pricing "claude-sonnet-9-20270101" = ModelPricing.mk 3.0 15.0 3.75 0.30 ∧
  get_pricing (String.append "claude-HAI" (String.append kelvin_sign "U-5"))
    = ModelPricing.mk 0.25 1.25 0.30 0.03 ∧
  (∀ word, Str.is_substring word (Str.lower "Claude-OPUS-next") ↔
           occurs_nocase word "Claude-OPUS-next").
Proof.
  split; [|split; [|split; [|split; [|split]]]].
  - apply (proj1 (get_pricing_lookup "claude-3-haiku-20240307")).
    reflexivity.
  - apply (proj1 (proj2 (get_pricing_lookup "Claude-OPUS-next")));
      [reflexivity|].
    apply contains_substring. reflexivity.
  - apply (proj1 (proj2 (get_pricing_lookup "claude-5-HAIKU")));
      [reflexivity| |].
    + apply contains_not_substring. reflexivity.
    + apply contains_substring. reflexivity.
  - apply (proj1 (proj2 (get_pricing_lookup "claude-sonnet-9-20270101")));
      [reflexivity| |]; apply contains_not_substring; reflexivity.
  - apply (proj1 (proj2 (get_pricing_lookup
             (String.append "claude-HAI" (String.append kelvin_sign "U-5")))));
      [reflexivity| |].
    + apply contains_not_substring. reflexivity.
    + apply contains_substring. reflexivity.
  - apply (proj2 (proj2 (get_pricing_lookup "Claude-OPUS-next"))).
    reflexivity.
Defined.

Lemma opus_before_haiku_witness :
  get_pricing "Haiku-then-Opus-mix" = ModelPricing.mk 15.0 75.0 18.75 1.50 ∧
  get_model_tier "Haiku-then-Opus-mix" = "Opus".
Proof.
  apply (opus_before_haiku "Haiku-then-Opus-mix").
  - reflexivity.
  - apply contains_substring. reflexivity.
  - apply contains_substring. reflexivity.
Defined.

Example kelvin_sign_tier :
  get_model_tier (String.append "claude-HAI" (String.append kelvin_sign "U-5"))
  = "Haiku".
Proof. reflexivity. Qed.

End PricingSamples.

(** ** Numbers and exceptions *)

Lemma bind_Ok {A B} (r : result A) (f : A → result B) (b : B) :
  r ≫= f = Ok b ↔ ∃ a, r = Ok a ∧ f a = Ok b.
Proof.
  destruct r as [a|e]; simpl; split.
  - intros H. by exists a.
  - by intros (a' & [= <-] & H).
  - done.
  - by intros (a' & [=] & _).
Qed.

Lemma bind_Raise {A B} (r : result A) (f : A → result B) (e : exn) :
  r ≫= f = Raise e ↔ r = Raise e ∨ ∃ a, r = Ok a ∧ f a = Raise e.
Proof.
  destruct r as [a|e']; simpl; split.
  - intros H. right. by exists a.
  - by intros [[=] | (a' & [= <-] & H)].
  - intros [= ->]. by left.
  - by intros [[= ->] | (a' & [=] & _)].
Qed.

Lemma float_of_int_0 : Num.float_of_int 0 = Ok 0%float.
Proof. vm_compute. reflexivity. Qed.

Lemma float_of_int_100 : Num.float_of_int 100 = Ok 100%float.
Proof. vm_compute. reflexivity. Qed.

Lemma float_gt_zero_nonzero (f : float) :
  Num.float_gt_zero f = true → (f =? 0)%float = false.
Proof.
  unfold Num.float_gt_zero. rewrite ltb_spec, FloatAxioms.eqb_spec.
  change (Prim2SF 0) with (S754_zero false).
  destruct (Prim2SF f) as [s|s| |s m e]; simpl; try destruct s; done.
Qed.

Lemma int_truediv_Raise (a b : Z) (e : exn) :
  Num.int_truediv a b = Raise e →
  (b = 0 ∧ e = ZeroDivisionError) ∨ (b ≠ 0 ∧ e = OverflowError).
Proof.
  unfold Num.int_truediv.
  destruct (Z.eqb_spec b 0) as [->|Hb]; [intros [= <-]; by left|].
  destruct (_ <=? _); [intros [= <-]; by right | done].
Qed.

Lemma int_truediv_Ok (a b : Z) :
  b ≠ 0 → Z.abs a < Num.overflow_threshold * Z.abs b →
  is_Ok (Num.int_truediv a b).
Proof.
  intros Hb Ha. unfold Num.int_truediv.
  destruct (Z.eqb_spec b 0) as [->|_]; [done|].
  destruct (Z.leb_spec (Num.overflow_threshold * Z.abs b) (Z.abs a));
    [lia | done].
Qed.

Lemma to_float_zero_or_float (x : Num.t) :
  zero_or_float x → ∃ c, Num.to_float x = Ok c.
Proof.
  destruct x as [n|f]; simpl; [intros ->|intros _].
  - exists 0%float. apply float_of_int_0.
  - by exists f.
Qed.

Lemma sum_from_floats (fs : list float) (acc : Num.t) :
  zero_or_float acc →
  ∃ total, Num.sum_from acc (map Num.Float fs) = Ok total ∧
           zero_or_float total.
Proof.
  revert acc. induction fs as [|f fs IH]; intros acc Hacc.
  - by exists acc.
  - cbn [map Num.sum_from].
    destruct (to_float_zero_or_float acc Hacc) as [c Hc].
    assert (Num.add acc (Num.Float f) = Ok (Num.Float (c + f)%float)) as ->.
    { destruct acc as [n|g]; simpl in *.
      - by rewrite Hc.
      - by injection Hc as ->. }
    apply (IH (Num.Float (c + f)%float) I).
Qed.

Section CostFailures.

Context {unicode : Str.Unicode}.

Lemma calculate_model_cost_Raise (stats : ModelStats.t) (e : exn) :
  calculate_model_cost stats = Raise e → e = OverflowError.
Proof.
  unfold calculate_model_cost.
  repeat (rewrite bind_Raise;
          intros [H | (? & _ & H)];
          [by destruct (int_truediv_Raise _ _ _ H) as [[? _] | [_ ?]]|];
          revert H).
  done.
Qed.

Lemma period_cost_loop_Raise items costs (e : exn) :
  period_cost_loop items costs = Raise e → e = OverflowError.
Proof.
  revert costs. induction items as [|[model ms] items IH]; intros costs.
  - done.
  - cbn [period_cost_loop]. rewrite bind_Raise.
    intros [H | (c & _ & H)].
    + by apply calculate_model_cost_Raise in H.
    + by apply IH in H.
Qed.

Lemma total_cost_Raise (stats : PeriodStats.t) (e : exn) :
  total_cost stats = Raise e → e = OverflowError.
Proof.
  unfold total_cost, calculate_period_cost. rewrite bind_Raise.
  intros [H | (costs & _ & H)].
  - by apply period_cost_loop_Raise in H.
  - unfold Num.sum in H.
    destruct (sum_from_floats (Dict.values costs) (Num.Int 0) eq_refl)
      as (total & Htotal & _).
    congruence.
Qed.

Lemma total_cost_zero_or_float (stats : PeriodStats.t) (cost : Num.t) :
  total_cost stats = Ok cost → zero_or_float cost.
Proof.
  unfold total_cost. rewrite bind_Ok. intros (costs & _ & H).
  unfold Num.sum in H.
  destruct (sum_from_floats (Dict.values costs) (Num.Int 0) eq_refl)
    as (total & Htotal & Hz).
  congruence.
Qed.

End CostFailures.

Arguments Num.float_of_int : simpl never.
Arguments Num.int_truediv : simpl never.

Section PlanUsageFacts.

Context {unicode : Str.Unicode}.

Lemma is_Ok_inv {A} (r : result A) : is_Ok r → ∃ a, r = Ok a.
Proof. destruct r as [a|e]; [by exists a | done]. Qed.

Lemma calculate_model_cost_Ok (ms : ModelStats.t) :
  counters_in_range ms → is_Ok (calculate_model_cost ms).
Proof.
  intros (Hi & Ho & Hcc & Hcr). unfold calculate_model_cost.
  destruct (is_Ok_inv _ (int_truediv_Ok (ModelStats.total_input ms) 1000000
                           ltac:(done) Hi)) as [q1 ->].
  destruct (is_Ok_inv _ (int_truediv_Ok (ModelStats.total_output ms) 1000000
                           ltac:(done) Ho)) as [q2 ->].
  destruct (is_Ok_inv _ (int_truediv_Ok (ModelStats.total_cache_create ms)
                           1000000 ltac:(done) Hcc)) as [q3 ->].
  destruct (is_Ok_inv _ (int_truediv_Ok (ModelStats.total_cache_read ms)
                           1000000 ltac:(done) Hcr)) as [q4 ->].
  done.
Qed.

Lemma period_cost_loop_Ok items costs :
  Forall (λ item, counters_in_range item.2) items →
  is_Ok (period_cost_loop items costs).
Proof.
  intros Hall. revert costs.
  induction Hall as [|[model ms] items Hms _ IH]; intros costs; [done|].
  cbn [period_cost_loop].
  destruct (is_Ok_inv _ (calculate_model_cost_Ok ms Hms)) as [c ->].
  apply IH.
Qed.

Lemma total_cost_Ok (stats : PeriodStats.t) :
  Forall (λ item, counters_in_range item.2) (PeriodStats.models stats) →
  is_Ok (total_cost stats).
Proof.
  intros Hall. unfold total_cost, calculate_period_cost.
  destruct (is_Ok_inv _ (period_cost_loop_Ok _ [] Hall)) as [costs ->].
  destruct (sum_from_floats (Dict.values costs) (Num.Int 0) eq_refl)
    as (total & Htotal & _).
  simpl. unfold Num.sum. by rewrite Htotal.
Qed.

(** ** Plan usage *)

Lemma mul_float_100 (q : float) :
  Num.mul (Num.Float q) (Num.Int 100) = Ok (Num.Float (q * 100)%float).
Proof.
  unfold Num.mul. cbn [Num.to_float]. by rewrite float_of_int_100.
Qed.

Lemma percent_of_float (used : Num.t) (limit c : float) :
  Num.to_float used = Ok c → (limit =? 0)%float = false →
  percent_of used (Num.Float limit) = Ok (Num.Float (c / limit * 100)%float).
Proof.
  intros Hc Hlimit. unfold percent_of.
  assert (Num.truediv used (Num.Float limit) = Ok (c / limit)%float) as ->.
  { destruct used as [n|f]; simpl in *.
    - rewrite Hc. simpl. by rewrite Hlimit.
    - injection Hc as ->. by rewrite Hlimit. }
  apply mul_float_100.
Qed.

Lemma percent_of_int (used limit : Z) (q : float) :
  Num.int_truediv used limit = Ok q →
  percent_of (Num.Int used) (Num.Int limit) = Ok (Num.Float (q * 100)%float).
Proof.
  intros Hq. unfold percent_of. cbn [Num.truediv]. rewrite Hq.
  apply mul_float_100.
Qed.

Lemma percent_of_Raise (used limit : Num.t) (e : exn) :
  percent_of used limit = Raise e →
  e = OverflowError ∨ e = ZeroDivisionError.
Proof.
  unfold percent_of. rewrite bind_Raise. intros [H | (q & _ & H)].
  - destruct used as [a|f], limit as [b|g]; simpl in H.
    + destruct (int_truediv_Raise _ _ _ H) as [[_ ->] | [_ ->]]; auto.
    + unfold Num.float_of_int in H.
      destruct (_ <=? _); simpl in H; [by left; injection H|].
      destruct (g =? 0)%float; [by right; injection H | done].
    + unfold Num.float_of_int in H.
      destruct (_ <=? _); simpl in H; [by left; injection H|].
      destruct (_ =? 0)%float; [by right; injection H | done].
    + destruct (g =? 0)%float; [by right; injection H | done].
  - by rewrite mul_float_100 in H.
Qed.

Lemma plan_limits_ceilings (plan : string) (cost_limit : float) (calls_limit : Z) :
  plan_ceilings plan = Some (cost_limit, calls_limit) →
  ∃ tokens,
    Dict.get plan PLAN_LIMITS =
      Some (PlanLimit.mk tokens cost_limit calls_limit) ∧
    Num.float_gt_zero cost_limit = true ∧ 0 < calls_limit.
Proof.
  unfold plan_ceilings.
  destruct (String.eqb_spec plan "pro") as [->|_];
    [intros [= <- <-]; by eexists|].
  destruct (String.eqb_spec plan "max5") as [->|_];
    [intros [= <- <-]; by eexists|].
  destruct (String.eqb_spec plan "max20") as [->|_];
    [intros [= <- <-]; by eexists | done].
Qed.



Lemma estimate_plan_usage_known (stats : PeriodStats.t) (plan : string)
    (cost_limit : float) (calls_limit : Z) (cost : Num.t) (q : float) :
  plan_ceilings plan = Some (cost_limit, calls_limit) →
  total_cost stats = Ok cost →
  Num.int_truediv (PeriodStats.total_calls stats) calls_limit = Ok q →
  ∃ c, Num.to_float cost = Ok c ∧
    estimate_plan_usage stats plan =
      Ok (Some (PlanUsage.mk plan
                  cost cost_limit
                  (Num.Float (c / cost_limit * 100)%float)
                  (PeriodStats.total_calls stats) calls_limit
                  (Num.Float (q * 100)%float))).
Proof.
  intros Hplan Hcost Hq.
  destruct (plan_limits_ceilings _ _ _ Hplan) as (tokens & Hget & Hgt & Hpos).
  destruct (to_float_zero_or_float cost
              (total_cost_zero_or_float stats cost Hcost)) as [c Hc].
  exists c. split; [done|].
  unfold estimate_plan_usage, estimate_plan_usage_in.
  rewrite Hget, Hcost. cbn [PlanLimit.cost PlanLimit.messages].
  rewrite Hgt. apply Z.ltb_lt in Hpos. rewrite Hpos.
  change (Ok cost ≫= ?f) with (f cost). cbv beta.
  rewrite (percent_of_float cost cost_limit c Hc
             (float_gt_zero_nonzero _ Hgt)).
  by rewrite (percent_of_int _ _ q Hq).
Qed.

(** Counts within the range of a float leave no failure: a known plan
    gets its answer. *)
Lemma estimate_plan_usage_returns (stats : PeriodStats.t) (plan : string)
    (cost_limit : float) (calls_limit : Z) :
  plan_ceilings plan = Some (cost_limit, calls_limit) →
  Forall (λ item, counters_in_range item.2) (PeriodStats.models stats) →
  Z.abs (PeriodStats.total_calls stats) < Num.overflow_threshold * calls_limit →
  ∃ usage, estimate_plan_usage stats plan = Ok (Some usage).
Proof.
  intros Hplan Hmodels Hcalls.
  destruct (plan_limits_ceilings _ _ _ Hplan) as (_ & _ & _ & Hpos).
  destruct (is_Ok_inv _ (total_cost_Ok stats Hmodels)) as [cost Hcost].
  destruct (is_Ok_inv _ (int_truediv_Ok (PeriodStats.total_calls stats)
                           calls_limit ltac:(lia) ltac:(lia))) as [q Hq].
  destruct (estimate_plan_usage_known stats plan _ _ cost q Hplan Hcost Hq)
    as (c & _ & Husage).
  by eexists.
Qed.


End PlanUsageFacts.

Section PlanUsageSamples.

#[local] Existing Instance sample_text.



End PlanUsageSamples.

(** ** Aggregation *)

Lemma int_sum_from (a : Z) (xs : list Z) : foldl Z.add a xs = a + int_sum xs.
Proof.
  unfold int_sum. revert a. induction xs as [|x xs IH]; intros a; simpl.
  - lia.
  - rewrite (IH (a + x)), (IH (0 + x)). lia.
Qed.

Lemma int_sum_cons (x : Z) (xs : list Z) : int_sum (x :: xs) = x + int_sum xs.
Proof. unfold int_sum at 1. simpl. apply int_sum_from. Qed.

Section Measure.

(** A quantity read off a model's statistics -- its calls, its tokens --
    that starts at zero and grows by [delta usage] with each usage added. *)
Variable measure : ModelStats.t → Z.
Variable delta : TokenUsage.t Z → Z.
Hypothesis measure_new : ∀ name, measure (ModelStats.new name) = 0.
Hypothesis measure_add : ∀ m usage,
  measure (ModelStats.add_usage m usage) = measure m + delta usage.

Local Abbreviation total := (total measure).

Lemma total_models_step (name : string) (usage : TokenUsage.t Z) models :
  total (Dict.update name (λ m, ModelStats.add_usage m usage)
           (if negb (Dict.contains name models)
            then Dict.set name (ModelStats.new name) models
            else models))
  = total models + delta usage.
Proof.
  unfold total, Dict.values, Dict.contains.
  induction models as [|[k v] models IH]; simpl.
  - rewrite String.eqb_refl. simpl.
    rewrite !int_sum_cons, measure_add, measure_new. unfold int_sum. simpl. lia.
  - destruct (String.eqb name k) eqn:Hk; simpl.
    + rewrite Hk. simpl. rewrite !int_sum_cons, measure_add. lia.
    + destruct (Dict.get name models) eqn:Hget; simpl in *;
        rewrite Hk; simpl; rewrite !int_sum_cons, IH; lia.
Qed.

Lemma total_aggregate_step acc entry :
  total (aggregate_step acc entry).2 =
  total acc.2 + delta (UsageEntry.usage entry).
Proof. destruct acc as [sessions models]. apply total_models_step. Qed.

Lemma total_aggregate_loop entries acc :
  total (foldl aggregate_step acc entries).2 =
  total acc.2 + int_sum (map (λ e, delta (UsageEntry.usage e)) entries).
Proof.
  revert acc. induction entries as [|entry entries IH]; intros acc; simpl.
  - unfold int_sum. simpl. lia.
  - rewrite IH, total_aggregate_step, int_sum_cons. lia.
Qed.

End Measure.

Lemma int_sum_ones {A} (xs : list A) :
  int_sum (map (λ _, 1) xs) = Z.of_nat (length xs).
Proof.
  induction xs as [|x xs IH]; [done|].
  cbn [map length]. rewrite int_sum_cons, IH. lia.
Qed.

Lemma aggregate_stats_nonempty (first : Entry) (rest : list Entry) (w : World) :
  aggregate_stats (first :: rest) w =
    (Ok (PeriodStats.mk
           (UsageEntry.timestamp first)
           (UsageEntry.timestamp (List.last rest first))
           (foldl aggregate_step (∅, []) (first :: rest)).2
           (Z.of_nat (size (foldl aggregate_step (∅, []) (first :: rest)).1))),
     w).
Proof.
  unfold aggregate_stats.
  cbn [PeriodStats.models PeriodStats.start PeriodStats.end_].
  assert (List.last (first :: rest) first = List.last rest first) as ->.
  { by destruct rest. }
  reflexivity.
Qed.

(** C3. Whatever the list of records, aggregation returns statistics whose
    total number of calls is the length of the list and whose total number
    of tokens is the sum, over the records, of each record's four token
    counters. *)
Theorem aggregate_stats_totals (entries : list Entry) (w : World) :
  ∃ stats w',
    aggregate_stats entries w = (Ok stats, w') ∧
    PeriodStats.total_calls stats = Z.of_nat (length entries) ∧
    PeriodStats.total_tokens stats =
      int_sum (map (λ e, TokenUsage.total_tokens (UsageEntry.usage e)) entries).
Proof.
  destruct entries as [|first rest].
  - eexists _, _. split; [reflexivity|]. done.
  - eexists _, _. split; [apply aggregate_stats_nonempty|].
    unfold PeriodStats.total_calls, PeriodStats.total_tokens.
    cbn [PeriodStats.models]. split.
    + rewrite <- int_sum_ones.
      apply (total_aggregate_loop ModelStats.call_count (λ _, 1)); [done|].
      intros m usage. reflexivity.
    + apply (total_aggregate_loop ModelStats.total_tokens
               TokenUsage.total_tokens); [done|].
      intros m usage. unfold ModelStats.total_tokens, TokenUsage.total_tokens.
      simpl. lia.
Qed.

(** C4. On the empty list aggregation reads the clock once and returns --
    as a value, not an error -- statistics that start and end at that
    reading, with no model, no session, no token and no call.  On a list
    that is not empty (sorted by time or not) the statistics start at the
    first record's timestamp and end at the last record's. *)
Theorem aggregate_stats_period (w : World) :
  (let t := clock w (ticks w) in
   aggregate_stats [] w =
     (Ok (PeriodStats.mk t t [] 0), mkWorld (clock w) (S (ticks w))) ∧
   PeriodStats.total_tokens (PeriodStats.mk t t [] 0) = 0 ∧
   PeriodStats.total_calls (PeriodStats.mk t t [] 0) = 0) ∧
  (∀ (first : Entry) (rest : list Entry),
   ∃ stats,
     aggregate_stats (first :: rest) w = (Ok stats, w) ∧
     PeriodStats.start stats = UsageEntry.timestamp first ∧
     PeriodStats.end_ stats = UsageEntry.timestamp (List.last rest first)).
Proof.
  split; [done|].
  intros first rest. eexists. split; [apply aggregate_stats_nonempty|]. done.
Qed.

(** ** The period filter *)

(** Unfolds the plumbing of [IO] in the goal. *)
Ltac run_io :=
  cbv [mbind mret IO_bind IO_ret result_bind result_ret lift now];
  cbn [clock ticks].

Lemma filter_step_window start end_ (filtered : list Entry) (entry : Entry) :
  filter_step start end_ filtered entry =
    Ok (if decide (in_window start end_ entry) then filtered ++ [entry]
        else filtered).
Proof.
  unfold filter_step, in_window, Datetime.le.
  cbn [datetime_of aware_timestamp Datetime.any_lt Datetime.any_gt].
  unfold Datetime.lt, Datetime.gt.
  destruct start as [s|], end_ as [e|]; cbn [mbind result_bind];
    repeat match goal with
           | |- context [?a <? ?b] => destruct (Z.ltb_spec a b)
           end;
    case_decide; first [done | lia].
Qed.

Lemma filter_loop_window start end_ (entries filtered : list Entry) :
  filter_loop start end_ filtered entries =
    Ok (filtered ++ filter (in_window start end_) entries).
Proof.
  revert filtered. induction entries as [|entry entries IH]; intros filtered.
  - simpl. by rewrite app_nil_r.
  - cbn [filter_loop]. rewrite filter_step_window. cbn [mbind result_bind].
    rewrite IH, filter_cons.
    case_decide; [by rewrite <- app_assoc | done].
Qed.

Lemma filter_window_unbounded (entries : list Entry) :
  filter (in_window None None) entries = entries.
Proof.
  induction entries as [|entry entries IH]; [done|].
  rewrite filter_cons_True; [by rewrite IH | done].
Qed.

Lemma filter_window_twice start end_ (entries : list Entry) :
  filter (in_window start end_) (filter (in_window start end_) entries) =
  filter (in_window start end_) entries.
Proof.
  induction entries as [|entry entries IH]; [done|].
  rewrite filter_cons. case_decide as Hin; [|done].
  rewrite filter_cons_True by done. by rewrite IH.
Qed.

Lemma filter_by_period_absolute (entries : list Entry) start end_ (w : World) :
  filter_by_period entries None start end_ w =
    (Ok (filter (in_window start end_) entries), w).
Proof.
  unfold filter_by_period.
  destruct start as [s|], end_ as [e|]; run_io;
    rewrite ?filter_loop_window, ?filter_window_unbounded; done.
Qed.

Lemma filter_by_period_days (entries : list Entry) (d : Z) start end_ (w : World) :
  filter_by_period entries (Some d) start end_ w =
    match Datetime.timedelta_days d ≫= Datetime.sub (clock w (ticks w)) with
    | Ok s =>
        (Ok (filter (in_window (Some s) (Some (clock w (S (ticks w))))) entries),
         mkWorld (clock w) (S (S (ticks w))))
    | Raise e => (Raise e, mkWorld (clock w) (S (ticks w)))
    end.
Proof.
  unfold filter_by_period. run_io.
  destruct (Datetime.timedelta_days d) as [delta|e]; run_io; [|done].
  destruct (Datetime.sub (clock w (ticks w)) delta) as [s|e]; run_io; [|done].
  by rewrite filter_loop_window.
Qed.

(** C5. Without a day-count: with no bound the filter returns its input;
    with bounds it returns the records whose timestamp [ts] satisfies
    [start <= ts] (when a start is given) and [ts <= end] (when an end is
    given), both inclusive -- those records, all of them, in the order of
    the input. *)
Theorem filter_by_period_window (entries : list Entry)
    (start end_ : option Datetime.t) (w : World) :
  filter_by_period entries None None None w = (Ok entries, w) ∧
  filter_by_period entries None start end_ w =
    (Ok (filter (in_window start end_) entries), w) ∧
  (∀ entry, entry ∈ filter (in_window start end_) entries ↔
            entry ∈ entries ∧ in_window start end_ entry) ∧
  filter (in_window start end_) entries `sublist_of` entries.
Proof.
  split; [|split; [|split]].
  - by rewrite filter_by_period_absolute, filter_window_unbounded.
  - apply filter_by_period_absolute.
  - intros entry. rewrite list_elem_of_filter. tauto.
  - apply sublist_filter.
Qed.

(** C9. With a day-count, explicit bounds passed along are not read: from
    the same state of the world the call answers as it does with the
    day-count alone, and what it keeps is the window from [d] days before
    the first clock reading to the second clock reading, whatever the
    explicit bounds were. *)
Theorem days_override_bounds (entries : list Entry) (d : Z)
    (start end_ : option Datetime.t) (w : World) :
  filter_by_period entries (Some d) start end_ w =
    filter_by_period entries (Some d) None None w ∧
  filter_by_period entries (Some d) start end_ w =
    match Datetime.timedelta_days d ≫= Datetime.sub (clock w (ticks w)) with
    | Ok s =>
        (Ok (filter (in_window (Some s) (Some (clock w (S (ticks w))))) entries),
         mkWorld (clock w) (S (S (ticks w))))
    | Raise e => (Raise e, mkWorld (clock w) (S (ticks w)))
    end.
Proof. split; [reflexivity | apply filter_by_period_days]. Qed.

(** C7, as stated, fails for a day-count.  Each call recomputes the window
    from the clock.  On a clock that ticks, with [days = 1]: the first call
    keeps both records of [day_old]; the second, made on that result, finds
    the older one out of the window and keeps only the other; a third call
    on the input, made after these two, keeps none.  So the filter applied
    twice agrees neither with a call made before it nor with one made
    after it. *)
Lemma filter_twice_days_differs :
  let w := mkWorld ticking_clock 0 in
  let twice := filter_twice day_old (Some 1) None None w in
  twice.1 = Ok (drop 1 day_old) ∧
  (filter_by_period day_old (Some 1) None None w).1 = Ok day_old ∧
  (filter_by_period day_old (Some 1) None None twice.2).1 = Ok [] ∧
  twice.1 ≠ (filter_by_period day_old (Some 1) None None w).1 ∧
  twice.1 ≠ (filter_by_period day_old (Some 1) None None twice.2).1.
Proof. vm_compute. repeat split; discriminate. Qed.

(** C7, amended.  The filter is idempotent on a fixed window.  With no
    day-count (no bound, or explicit bounds) the filter applied to its own
    result returns that result, whatever the clock does.  With a day-count
    the same holds when the second call reads from the clock the two values
    the first call read. *)
Theorem filter_idempotent_fixed_window (entries : list Entry)
    (days : option Z) (start end_ : option Datetime.t) (w : World) :
  days = None ∨
  (clock w (S (S (ticks w))) = clock w (ticks w) ∧
   clock w (S (S (S (ticks w)))) = clock w (S (ticks w))) →
  (filter_twice entries days start end_ w).1 =
  (filter_by_period entries days start end_ w).1.
Proof.
  intros Hfixed. unfold filter_twice.
  cbv [mbind IO_bind]. destruct days as [d|].
  - destruct Hfixed as [? | [H0 H1]]; [done|].
    rewrite filter_by_period_days.
    destruct (Datetime.timedelta_days d ≫= Datetime.sub (clock w (ticks w)))
      as [s|e] eqn:Hs; [|done].
    rewrite filter_by_period_days. cbn [clock ticks].
    rewrite H0, H1, Hs. cbn [fst]. by rewrite filter_window_twice.
  - rewrite !filter_by_period_absolute. cbn [fst].
    by rewrite filter_window_twice.
Qed.

Lemma filter_idempotent_fixed_window_witness :
  (filter_twice day_old None
     (Some (Datetime.mk (new_year_2025 - Datetime.us_per_day + 1) 0)) None
     (mkWorld ticking_clock 0)).1 =
  (filter_by_period day_old None
     (Some (Datetime.mk (new_year_2025 - Datetime.us_per_day + 1) 0)) None
     (mkWorld ticking_clock 0)).1 ∧
  (filter_twice day_old (Some 1) None None (mkWorld frozen_clock 0)).1 =
  (filter_by_period day_old (Some 1) None None (mkWorld frozen_clock 0)).1.
Proof.
  split.
  - apply filter_idempotent_fixed_window. left. reflexivity.
  - apply filter_idempotent_fixed_window. right. split; reflexivity.
Defined.

(** ** Record parsing *)

Section FromDictFacts.

Variable fromisoformat : string → option Datetime.any.
Implicit Types (o m u : Dict.t json).

Local Abbreviation from_dict := (UsageEntry.from_dict fromisoformat).
Local Abbreviation from_dict_try := (UsageEntry.from_dict_try fromisoformat).

Lemma from_dict_try_None (data : json) :
  from_dict_try data = Ok None → from_dict data = Ok None.
Proof. unfold UsageEntry.from_dict. by intros ->. Qed.

Lemma from_dict_Some_try (data : json) entry :
  from_dict data = Ok (Some entry) → from_dict_try data = Ok (Some entry).
Proof.
  unfold UsageEntry.from_dict.
  destruct (from_dict_try data) as [r|[]]; done.
Qed.

(** A falsy usage value ends the parse with no record. *)
Lemma from_dict_falsy_usage o m (usage_data : json) :
  Dict.get "message" o = Some (JObj m) →
  (match Dict.get "usage" m with Some x => x | None => JObj [] end) = usage_data →
  Json.truthy usage_data = false →
  from_dict (JObj o) = Ok None.
Proof.
  intros Hmessage Husage Hfalsy. apply from_dict_try_None.
  unfold UsageEntry.from_dict_try. cbn [Json.get]. rewrite Hmessage.
  cbn [mbind result_bind Json.get]. rewrite Husage.
  cbn [mbind result_bind]. by rewrite Hfalsy.
Qed.

(** X23. A decoded line with no message, with a message (a dict) that
    has no usage entry, or with a message whose usage is empty (the empty
    dict, or any other falsy value) parses to no record, [None], and not
    to a record of zero usage.  A record comes out only of a message whose
    usage is a dict that is not empty. *)
Theorem from_dict_usage_gate o :
  (Dict.get "message" o = None → from_dict (JObj o) = Ok None) ∧
  (∀ m, Dict.get "message" o = Some (JObj m) →
        Dict.get "usage" m = None → from_dict (JObj o) = Ok None) ∧
  (∀ m, Dict.get "message" o = Some (JObj m) →
        Dict.get "usage" m = Some (JObj []) → from_dict (JObj o) = Ok None) ∧
  (∀ m usage_data,
        Dict.get "message" o = Some (JObj m) →
        Dict.get "usage" m = Some usage_data →
        Json.truthy usage_data = false → from_dict (JObj o) = Ok None) ∧
  (∀ entry, from_dict (JObj o) = Ok (Some entry) →
        ∃ m u, Dict.get "message" o = Some (JObj m) ∧
               Dict.get "usage" m = Some (JObj u) ∧ u ≠ []).
Proof.
  split; [|split; [|split; [|split]]].
  - intros Hmessage. apply from_dict_try_None.
    unfold UsageEntry.from_dict_try. cbn [Json.get]. by rewrite Hmessage.
  - intros m Hmessage Husage.
    apply (from_dict_falsy_usage o m (JObj [])); [done | by rewrite Husage | done].
  - intros m Hmessage Husage.
    apply (from_dict_falsy_usage o m (JObj [])); [done | by rewrite Husage | done].
  - intros m usage_data Hmessage Husage Hfalsy.
    apply (from_dict_falsy_usage o m usage_data); [done | by rewrite Husage | done].
  - intros entry H. apply from_dict_Some_try in H.
    unfold UsageEntry.from_dict_try in H. cbn [Json.get] in H.
    destruct (Dict.get "message" o) as [message|] eqn:Hmessage;
      cbn [mbind result_bind] in H; [|done].
    destruct message as [| | | | | |m]; try done. cbn [Json.get] in H.
    destruct (Dict.get "usage" m) as [usage_data|] eqn:Husage;
      cbn [mbind result_bind] in H; [|done].
    destruct (Json.truthy usage_data) eqn:Htruthy; [|done].
    cbn [negb] in H. exists m.
    destruct usage_data as [|b|n|f|s|l|u].
    7: { exists u. by destruct u. }
    all: repeat (apply bind_Ok in H; destruct H as (? & ? & H)); done.
Qed.


(** With a usage dict that is not empty and a timestamp that parses, the
    record is built from the line. *)
Lemma from_dict_builds o m u (raw : string) (ts : Datetime.any) :
  Dict.get "message" o = Some (JObj m) →
  Dict.get "usage" m = Some (JObj u) → u ≠ [] →
  Dict.get "timestamp" o = Some (JStr raw) →
  fromisoformat (Str.replace_char "Z"%char "+00:00" raw) = Some ts →
  ∃ entry, from_dict (JObj o) = Ok (Some entry) ∧
           UsageEntry.timestamp entry = ts.
Proof.
  intros Hmessage Husage Hu Hraw Hts. eexists.
  unfold UsageEntry.from_dict, UsageEntry.from_dict_try.
  cbn [Json.get Json.getitem Json.replace_Z]. rewrite Hmessage.
  cbn [mbind result_bind Json.get]. rewrite Husage.
  cbn [mbind result_bind Json.truthy].
  destruct u as [|item u]; [done|]. cbn [negb]. rewrite Hraw.
  cbn [mbind result_bind Json.replace_Z].
  unfold UsageEntry.parse_timestamp. rewrite Hts.
  cbn [mbind result_bind]. split; reflexivity.
Qed.

End FromDictFacts.

Lemma from_dict_usage_gate_witness :
  UsageEntry.from_dict fromisoformat_2025 (JObj summary_line) = Ok None ∧
  UsageEntry.from_dict fromisoformat_2025 (JObj user_line) = Ok None ∧
  UsageEntry.from_dict fromisoformat_2025 (JObj empty_usage_line) = Ok None ∧
  UsageEntry.from_dict fromisoformat_2025 (JObj null_usage_line) = Ok None ∧
  (∃ m u, Dict.get "message" assistant_line = Some (JObj m) ∧
          Dict.get "usage" m = Some (JObj u) ∧ u ≠ []).
Proof.
  split; [|split; [|split; [|split]]].
  - apply (proj1 (from_dict_usage_gate fromisoformat_2025 summary_line)).
    reflexivity.
  - apply (proj1 (proj2 (from_dict_usage_gate fromisoformat_2025 user_line))
             [("role", JStr "user"); ("content", JStr "hello")]);
      reflexivity.
  - apply (proj1 (proj2 (proj2
             (from_dict_usage_gate fromisoformat_2025 empty_usage_line)))
             [("model", JStr "claude-3-opus-20240229"); ("usage", JObj [])]);
      reflexivity.
  - apply (proj1 (proj2 (proj2 (proj2
             (from_dict_usage_gate fromisoformat_2025 null_usage_line))))
             [("usage", JNull)] JNull);
      reflexivity.
  - apply (proj2 (proj2 (proj2 (proj2
             (from_dict_usage_gate fromisoformat_2025 assistant_line))))
             assistant_record).
    reflexivity.
Defined.

(** C6: the code breaks the claim on a line whose message is not a dict.
    Such a message has no usage block, and the claim asks for [None]; the
    function calls [message.get], which [None], a string and a list do not
    have, and the [AttributeError] is not among the exceptions that its
    handler turns into [None]. *)
Lemma from_dict_message_not_dict_raises :
  UsageEntry.from_dict fromisoformat_2025 (JObj [("message", JNull)])
    = Raise AttributeError ∧
  UsageEntry.from_dict fromisoformat_2025 (JObj [("message", JStr "hello")])
    = Raise AttributeError ∧
  UsageEntry.from_dict fromisoformat_2025
    (JObj [("timestamp", JStr "2025-01-01T00:00:00Z");
           ("sessionId", JStr "s1"); ("message", JArr [])])
    = Raise AttributeError.
Proof. repeat split. Qed.

(** ** Scenarios of the specification, evaluated *)

Section Scenarios.

#[local] Existing Instance sample_text.

Example haiku_scenario_cost :
  (stats ← (aggregate_stats haiku_calls (mkWorld ticking_clock 0)).1;
   total_cost stats) = Ok (Num.Float 4.5).
Proof. vm_compute. reflexivity. Qed.

Example haiku_scenario_models :
  (stats ← (aggregate_stats haiku_calls (mkWorld ticking_clock 0)).1;
   Ok (PeriodStats.models stats)) =
  Ok [("claude-3-5-haiku-20241022",
       ModelStats.mk "claude-3-5-haiku-20241022" 3000000 3000000 0 0 3)].
Proof. vm_compute. reflexivity. Qed.

Example unknown_plan_scenario :
  estimate_plan_usage heavy_period "enterprise" = Ok None.
Proof. reflexivity. Qed.

Example free_plan_scenario :
  estimate_plan_usage_in free_plan heavy_period "free" =
    Ok (Some (PlanUsage.mk "free" (Num.Float 150) 0 (Num.Int 0) 3 0 (Num.Int 0))).
Proof. vm_compute. reflexivity. Qed.

Example overflow_scenario :
  Num.int_truediv (10 ^ 320) 1000000 = Raise OverflowError.
Proof. vm_compute. reflexivity. Qed.

Example assistant_line_parses :
  UsageEntry.from_dict fromisoformat_2025 (JObj assistant_line) =
    Ok (Some assistant_record).
Proof. reflexivity. Qed.

Example naive_line_parses :
  UsageEntry.from_dict fromisoformat_2025 (JObj naive_line) =
    Ok (Some naive_record).
Proof. reflexivity. Qed.

End Scenarios.

(** * Further properties of the code *)

Set Warnings "-clear-no-such-hyp".

(** ** Dictionary lookups after a write *)

Section DictWrites.

Context {V : Type}.
Implicit Types (d : Dict.t V) (k : string) (v : V).

Lemma dict_get_set k k' v d :
  Dict.get k (Dict.set k' v d) =
    if String.eqb k k' then Some v else Dict.get k d.
Proof.
  induction d as [|[k0 v0] d IH]; simpl.
  - by destruct (String.eqb k k').
  - destruct (String.eqb_spec k' k0) as [->|Hne]; simpl.
    + by destruct (String.eqb k k0).
    + rewrite IH. destruct (String.eqb_spec k k0) as [->|_]; [|done].
      destruct (String.eqb_spec k0 k'); [congruence | done].
Qed.

Lemma dict_get_update k k' (f : V → V) d :
  Dict.get k (Dict.update k' f d) =
    if String.eqb k k' then f <$> Dict.get k d else Dict.get k d.
Proof.
  induction d as [|[k0 v0] d IH]; simpl.
  - by destruct (String.eqb k k').
  - destruct (String.eqb_spec k' k0) as [->|Hne]; simpl.
    + by destruct (String.eqb k k0).
    + rewrite IH. destruct (String.eqb_spec k k0) as [->|_]; [|done].
      destruct (String.eqb_spec k0 k'); [congruence | done].
Qed.

Lemma dict_keys_update k (f : V → V) d :
  map fst (Dict.update k f d) = map fst d.
Proof.
  induction d as [|[k0 v0] d IH]; simpl; [done|].
  destruct (String.eqb k k0); simpl; by rewrite ?IH.
Qed.

Lemma dict_get_None_keys k d : Dict.get k d = None ↔ k ∉ map fst d.
Proof.
  induction d as [|[k0 v0] d IH]; simpl.
  - split; [intros _; apply not_elem_of_nil | done].
  - rewrite not_elem_of_cons.
    destruct (String.eqb_spec k k0) as [->|Hne]; [split; [done | tauto]|].
    rewrite IH. tauto.
Qed.

Lemma dict_set_fresh k v d :
  k ∉ map fst d → Dict.set k v d = d ++ [(k, v)].
Proof.
  induction d as [|[k0 v0] d IH]; simpl; [done|].
  rewrite not_elem_of_cons. intros [Hne Hk].
  destruct (String.eqb_spec k k0); [done|]. by rewrite IH.
Qed.

End DictWrites.

(** ** What the aggregation holds for each model *)

Lemma absorb_closed (m : ModelStats.t) (entries : list Entry) :
  absorb m entries =
    ModelStats.mk (ModelStats.model m)
      (ModelStats.total_input m + counter_sum TokenUsage.input_tokens entries)
      (ModelStats.total_output m + counter_sum TokenUsage.output_tokens entries)
      (ModelStats.total_cache_create m +
         counter_sum TokenUsage.cache_creation_input_tokens entries)
      (ModelStats.total_cache_read m +
         counter_sum TokenUsage.cache_read_input_tokens entries)
      (ModelStats.call_count m + Z.of_nat (length entries)).
Proof.
  unfold absorb, counter_sum. revert m.
  induction entries as [|e entries IH]; intros m.
  - destruct m. cbn. unfold int_sum. cbn. f_equal; lia.
  - cbn [foldl map length]. rewrite IH, !int_sum_cons.
    unfold ModelStats.add_usage. cbn. f_equal; lia.
Qed.

Lemma entries_of_nil_iff (name : string) (entries : list Entry) :
  entries_of name entries = [] ↔ name ∉ map UsageEntry.model entries.
Proof.
  unfold entries_of. induction entries as [|e entries IH]; simpl.
  - split; [intros _; apply not_elem_of_nil | done].
  - rewrite not_elem_of_cons, filter_cons.
    case_decide as Hm; [split; [done | intros [? _]; congruence]|].
    rewrite IH. split; [intros ?; split; congruence | tauto].
Qed.

Lemma aggregate_step_get (name : string) acc (entry : Entry) :
  Dict.get name (aggregate_step acc entry).2 =
    if String.eqb name (UsageEntry.model entry)
    then Some (ModelStats.add_usage
                 (default (ModelStats.new name) (Dict.get name acc.2))
                 (UsageEntry.usage entry))
    else Dict.get name acc.2.
Proof.
  destruct acc as [sessions models]. cbn [aggregate_step snd].
  rewrite dict_get_update.
  destruct (String.eqb_spec name (UsageEntry.model entry)) as [->|Hne].
  - unfold Dict.contains.
    destruct (Dict.get (UsageEntry.model entry) models) as [m|] eqn:Hget;
      cbn [negb].
    + by rewrite Hget.
    + by rewrite dict_get_set, String.eqb_refl.
  - destruct (negb _); [|done]. rewrite dict_get_set.
    by destruct (String.eqb_spec name (UsageEntry.model entry)).
Qed.

Lemma aggregate_loop_get (name : string) (entries : list Entry) acc :
  Dict.get name (foldl aggregate_step acc entries).2 =
    if decide (entries_of name entries = []) then Dict.get name acc.2
    else Some (absorb (default (ModelStats.new name) (Dict.get name acc.2))
                      (entries_of name entries)).
Proof.
  revert acc. induction entries as [|e entries IH]; intros acc; [done|].
  cbn [foldl]. rewrite IH, aggregate_step_get. unfold entries_of.
  rewrite filter_cons.
  destruct (decide (UsageEntry.model e = name)) as [<-|Hne].
  - rewrite String.eqb_refl.
    destruct (decide (filter _ entries = [])) as [Hrest|Hrest].
    + rewrite Hrest. by rewrite decide_False.
    + by rewrite decide_False.
  - destruct (String.eqb_spec name (UsageEntry.model e)); [congruence|].
    done.
Qed.

Lemma aggregate_stats_loop (entries : list Entry) (w : World) :
  ∃ stats w',
    aggregate_stats entries w = (Ok stats, w') ∧
    PeriodStats.models stats = (foldl aggregate_step (∅, []) entries).2 ∧
    PeriodStats.session_count stats =
      Z.of_nat (size (foldl aggregate_step (∅, []) entries).1).
Proof.
  destruct entries as [|first rest].
  - eexists _, _. split; [reflexivity|]. split; [done|].
    cbn. by rewrite size_empty.
  - eexists _, _. split; [apply aggregate_stats_nonempty|]. done.
Qed.

Lemma elem_of_map_model (name : string) (entries : list Entry) :
  name ∈ map UsageEntry.model entries ↔
  ∃ e, e ∈ entries ∧ UsageEntry.model e = name.
Proof.
  rewrite list_elem_of_In, in_map_iff. split.
  - intros (e & <- & He). exists e. by rewrite list_elem_of_In.
  - intros (e & He & <-). exists e. by rewrite <- list_elem_of_In.
Qed.

(** X1. After aggregation the statistics kept under a model's name are
    that model's: its name, the sum of each of the four counters over the
    records of that model, and the number of those records.  A name that
    no record carries has no statistics. *)
Theorem aggregate_stats_per_model (entries : list Entry) (w : World)
    (name : string) :
  ∃ stats w',
    aggregate_stats entries w = (Ok stats, w') ∧
    Dict.get name (PeriodStats.models stats) =
      if decide (name ∈ map UsageEntry.model entries)
      then Some (model_summary name entries)
      else None.
Proof.
  destruct (aggregate_stats_loop entries w)
    as (stats & w' & Hrun & Hmodels & _).
  exists stats, w'. split; [done|]. rewrite Hmodels.
  rewrite aggregate_loop_get. cbn [snd Dict.get default].
  destruct (decide (entries_of name entries = [])) as [Hnone|Hsome].
  - apply entries_of_nil_iff in Hnone. by rewrite decide_False.
  - destruct (decide (name ∈ map UsageEntry.model entries)) as [_|Hout];
      [|by apply entries_of_nil_iff in Hout].
    rewrite absorb_closed. unfold model_summary. cbn. f_equal.
Qed.

Lemma aggregate_step_keys acc (entry : Entry) :
  map fst (aggregate_step acc entry).2 =
    if decide (UsageEntry.model entry ∈ map fst acc.2) then map fst acc.2
    else map fst acc.2 ++ [UsageEntry.model entry].
Proof.
  destruct acc as [sessions models]. cbn [aggregate_step snd].
  rewrite dict_keys_update. unfold Dict.contains.
  destruct (Dict.get (UsageEntry.model entry) models) as [m|] eqn:Hget;
    cbn [negb].
  - rewrite decide_True; [done|].
    destruct (decide (UsageEntry.model entry ∈ map fst models)); [done|].
    apply dict_get_None_keys in n. congruence.
  - apply dict_get_None_keys in Hget. rewrite decide_False by done.
    rewrite dict_set_fresh by done. by rewrite map_app.
Qed.

Lemma aggregate_loop_keys (entries : list Entry) acc :
  map fst (foldl aggregate_step acc entries).2 =
    map fst acc.2 ++
    filter (λ n, n ∉ map fst acc.2)
           (first_occurrences (map UsageEntry.model entries)).
Proof.
  revert acc. induction entries as [|e entries IH]; intros acc.
  - cbn. by rewrite app_nil_r.
  - cbn [foldl map first_occurrences]. rewrite IH, aggregate_step_keys.
    rewrite filter_cons, list_filter_filter.
    destruct (decide (UsageEntry.model e ∈ map fst acc.2)) as [Hin|Hout].
    + rewrite decide_False by tauto. f_equal.
      apply list_filter_iff. intros n. split; [|tauto].
      intros Hn. split; [done | congruence].
    + rewrite decide_True by done. rewrite <- app_assoc. cbn. do 2 f_equal.
      apply list_filter_iff. intros n.
      rewrite not_elem_of_app, list_elem_of_singleton. tauto.
Qed.

Lemma filter_all {A} (P : A → Prop) `{!∀ x, Decision (P x)} (l : list A) :
  (∀ x, P x) → filter P l = l.
Proof.
  intros HP. induction l as [|x l IH]; [done|].
  by rewrite filter_cons_True, IH.
Qed.

Lemma first_occurrences_elem (names : list string) (n : string) :
  n ∈ first_occurrences names ↔ n ∈ names.
Proof.
  induction names as [|name names IH]; [done|].
  cbn [first_occurrences]. rewrite !elem_of_cons, list_elem_of_filter, IH.
  destruct (decide (n = name)); tauto.
Qed.

Lemma first_occurrences_NoDup (names : list string) :
  NoDup (first_occurrences names).
Proof.
  induction names as [|name names IH]; [constructor|].
  cbn [first_occurrences]. constructor.
  - rewrite list_elem_of_filter. tauto.
  - by apply NoDup_filter.
Qed.

(** X2. The models dictionary of the aggregated statistics has one key per
    model name found in the records, and the keys stand in the order in
    which the names first occur. *)
Theorem aggregate_stats_model_keys (entries : list Entry) (w : World) :
  ∃ stats w',
    aggregate_stats entries w = (Ok stats, w') ∧
    map fst (PeriodStats.models stats) =
      first_occurrences (map UsageEntry.model entries) ∧
    NoDup (map fst (PeriodStats.models stats)) ∧
    (∀ name, name ∈ map fst (PeriodStats.models stats) ↔
             ∃ e, e ∈ entries ∧ UsageEntry.model e = name).
Proof.
  destruct (aggregate_stats_loop entries w)
    as (stats & w' & Hrun & Hmodels & _).
  exists stats, w'. split; [done|]. rewrite Hmodels.
  assert (map fst (foldl aggregate_step (∅, []) entries).2 =
          first_occurrences (map UsageEntry.model entries)) as ->.
  { rewrite aggregate_loop_keys. cbn [snd map app].
    apply filter_all. intros n. apply not_elem_of_nil. }
  split; [done|]. split; [apply first_occurrences_NoDup|].
  intros name. by rewrite first_occurrences_elem, elem_of_map_model.
Qed.

Lemma aggregate_loop_sessions (entries : list Entry) acc :
  (foldl aggregate_step acc entries).1 =
    list_to_set (map UsageEntry.session_id entries) ∪ acc.1.
Proof.
  revert acc. induction entries as [|e entries IH]; intros acc.
  - cbn. set_solver.
  - cbn [foldl map]. rewrite IH. destruct acc as [sessions models].
    cbn [aggregate_step fst]. set_solver.
Qed.

Lemma size_list_to_set_le (l : list string) :
  (size (list_to_set l : gset string) ≤ length l)%nat.
Proof.
  induction l as [|x l IH]; cbn [length].
  - rewrite list_to_set_nil, size_empty. lia.
  - rewrite list_to_set_cons, size_union_alt, size_singleton.
    assert (list_to_set l ∖ {[x]} ⊆ (list_to_set l : gset string)) as Hsub
      by set_solver.
    apply subseteq_size in Hsub. lia.
Qed.

(** X3. The session count of the aggregated statistics is the number of
    distinct session identifiers among the records: never more than the
    number of records, and zero only for no record at all. *)
Theorem aggregate_stats_sessions (entries : list Entry) (w : World) :
  ∃ stats w',
    aggregate_stats entries w = (Ok stats, w') ∧
    PeriodStats.session_count stats =
      Z.of_nat (size (list_to_set (map UsageEntry.session_id entries)
                      : gset string)) ∧
    0 ≤ PeriodStats.session_count stats ≤ Z.of_nat (length entries) ∧
    (PeriodStats.session_count stats = 0 ↔ entries = []).
Proof.
  destruct (aggregate_stats_loop entries w)
    as (stats & w' & Hrun & _ & Hcount).
  exists stats, w'. split; [done|]. rewrite Hcount.
  rewrite aggregate_loop_sessions. cbn [fst].
  rewrite (right_id_L ∅ (∪)). split; [done|]. split.
  - pose proof (size_list_to_set_le (map UsageEntry.session_id entries)).
    rewrite length_map in *. lia.
  - split.
    + intros Hzero. destruct entries as [|e entries]; [done|].
      cbn [map] in Hzero. rewrite list_to_set_cons in Hzero.
      assert (size ({[UsageEntry.session_id e]} ∪
                    list_to_set (map UsageEntry.session_id entries)
                    : gset string) = 0%nat) as Hsize by lia.
      apply size_empty_iff in Hsize. set_solver.
    + intros ->. cbn. by rewrite size_empty.
Qed.

Lemma int_sum_perm (xs ys : list Z) : xs ≡ₚ ys → int_sum xs = int_sum ys.
Proof.
  induction 1 as [|x xs ys _ IH|x y xs|xs ys zs _ IH1 _ IH2].
  - done.
  - by rewrite !int_sum_cons, IH.
  - rewrite !int_sum_cons. lia.
  - congruence.
Qed.

Lemma counter_sum_perm counter (xs ys : list Entry) :
  xs ≡ₚ ys → counter_sum counter xs = counter_sum counter ys.
Proof.
  intros Hperm. unfold counter_sum. apply int_sum_perm.
  by apply Permutation_map.
Qed.

Lemma model_summary_perm (name : string) (xs ys : list Entry) :
  xs ≡ₚ ys → model_summary name xs = model_summary name ys.
Proof.
  intros Hperm.
  assert (entries_of name xs ≡ₚ entries_of name ys) as Hmine
    by (unfold entries_of; by rewrite Hperm).
  unfold model_summary.
  rewrite !(counter_sum_perm _ _ _ Hmine).
  by rewrite (Permutation_length Hmine).
Qed.

Lemma aggregate_stats_sums (entries : list Entry) (w : World) stats w' :
  aggregate_stats entries w = (Ok stats, w') →
  PeriodStats.total_calls stats = Z.of_nat (length entries) ∧
  PeriodStats.total_tokens stats =
    counter_sum TokenUsage.total_tokens entries.
Proof.
  destruct (aggregate_stats_loop entries w)
    as (stats0 & w0 & Hrun & Hmodels & _).
  rewrite Hrun. intros [= <- <-].
  unfold PeriodStats.total_calls, PeriodStats.total_tokens.
  rewrite Hmodels. split.
  - rewrite <- int_sum_ones.
    apply (total_aggregate_loop ModelStats.call_count (λ _, 1)); [done|].
    intros m usage. reflexivity.
  - apply (total_aggregate_loop ModelStats.total_tokens
             TokenUsage.total_tokens); [done|].
    intros m usage. unfold ModelStats.total_tokens, TokenUsage.total_tokens.
    simpl. lia.
Qed.

(** X4. The order of the records does not matter to what is counted: two
    lists with the same records, in any order, aggregate to the same
    statistics for every model, the same number of sessions, the same
    total of calls and the same total of tokens.  (The order decides only
    the start, the end and the order of the keys.) *)
Theorem aggregate_stats_order_independent (xs ys : list Entry)
    (wx wy : World) :
  xs ≡ₚ ys →
  ∃ sx sy wx' wy',
    aggregate_stats xs wx = (Ok sx, wx') ∧
    aggregate_stats ys wy = (Ok sy, wy') ∧
    (∀ name, Dict.get name (PeriodStats.models sx) =
             Dict.get name (PeriodStats.models sy)) ∧
    PeriodStats.session_count sx = PeriodStats.session_count sy ∧
    PeriodStats.total_calls sx = PeriodStats.total_calls sy ∧
    PeriodStats.total_tokens sx = PeriodStats.total_tokens sy.
Proof.
  intros Hperm.
  destruct (aggregate_stats_loop xs wx) as (sx & wx' & Hx & Hmx & Hcx).
  destruct (aggregate_stats_loop ys wy) as (sy & wy' & Hy & Hmy & Hcy).
  exists sx, sy, wx', wy'. split; [done|]. split; [done|].
  split; [|split; [|split]].
  - intros name. rewrite Hmx, Hmy, !aggregate_loop_get. cbn [snd Dict.get].
    assert (entries_of name xs ≡ₚ entries_of name ys) as Hmine
      by (unfold entries_of; by rewrite Hperm).
    destruct (decide (entries_of name xs = [])) as [Hnil|Hsome].
    + rewrite Hnil in Hmine. apply Permutation_nil in Hmine.
      by rewrite Hmine, decide_True.
    + rewrite decide_False.
      * f_equal. rewrite !absorb_closed.
        rewrite !(counter_sum_perm _ _ _ Hmine).
        by rewrite (Permutation_length Hmine).
      * intros Hnil. rewrite Hnil in Hmine.
        symmetry in Hmine. by apply Permutation_nil in Hmine.
  - rewrite Hcx, Hcy, !aggregate_loop_sessions.
    by rewrite (Permutation_map UsageEntry.session_id Hperm).
  - destruct (aggregate_stats_sums _ _ _ _ Hx) as [-> _].
    destruct (aggregate_stats_sums _ _ _ _ Hy) as [-> _].
    by rewrite (Permutation_length Hperm).
  - destruct (aggregate_stats_sums _ _ _ _ Hx) as [_ ->].
    destruct (aggregate_stats_sums _ _ _ _ Hy) as [_ ->].
    by apply counter_sum_perm.
Qed.

Lemma aggregate_stats_order_independent_witness :
  ∃ sx sy wx' wy',
    aggregate_stats day_old (mkWorld ticking_clock 0) = (Ok sx, wx') ∧
    aggregate_stats (reverse day_old) (mkWorld frozen_clock 0) = (Ok sy, wy') ∧
    (∀ name, Dict.get name (PeriodStats.models sx) =
             Dict.get name (PeriodStats.models sy)) ∧
    PeriodStats.session_count sx = PeriodStats.session_count sy ∧
    PeriodStats.total_calls sx = PeriodStats.total_calls sy ∧
    PeriodStats.total_tokens sx = PeriodStats.total_tokens sy.
Proof.
  apply (aggregate_stats_order_independent day_old (reverse day_old)).
  apply perm_swap.
Defined.

(** ** Sorting by timestamp *)

Lemma any_lt_Ok (a b : Datetime.any) (earlier : bool) :
  Datetime.any_lt a b = Ok earlier ↔
  Datetime.is_aware a = Datetime.is_aware b ∧
  earlier = (Datetime.key a <? Datetime.key b).
Proof.
  destruct a as [x|x], b as [y|y]; cbn; unfold Datetime.lt;
    split; first [by intros [= <-] | by intros [_ ->] | by intros [? _]].
Qed.

Lemma any_lt_Raise (a b : Datetime.any) (e : exn) :
  Datetime.any_lt a b = Raise e ↔
  e = TypeError ∧ Datetime.is_aware a ≠ Datetime.is_aware b.
Proof.
  destruct a as [x|x], b as [y|y]; cbn;
    split; first [done | by intros [= <-] | by intros [-> _] | by intros [_ ?]].
Qed.

Lemma any_le_key (a b : Datetime.any) :
  Datetime.any_le a b ↔
  Datetime.is_aware a = Datetime.is_aware b ∧ Datetime.key a ≤ Datetime.key b.
Proof.
  destruct a as [x|x], b as [y|y]; cbn; unfold Datetime.le;
    split; first [done | by intros [? _] | by intros [_ ?]].
Qed.

Section SortedFacts.

Context {T S I : Type} `{!Timestamp T}.
Implicit Types (e : UsageEntry.t T S I) (l : list (UsageEntry.t T S I)).

Local Abbreviation stamp e := (datetime_of (UsageEntry.timestamp e)).

Lemma insert_by_timestamp_perm e l l' :
  insert_by_timestamp e l = Ok l' → l' ≡ₚ e :: l.
Proof.
  revert l'. induction l as [|y l IH]; intros l'; cbn [insert_by_timestamp].
  - by intros [= <-].
  - destruct (Datetime.any_lt _ _) as [[|]|]; cbn [mbind result_bind];
      [|by intros [= <-] | done].
    destruct (insert_by_timestamp e l) as [rest|]; [|done].
    cbn [mbind result_bind]. intros [= <-].
    rewrite (IH rest eq_refl). apply perm_swap.
Qed.

Lemma insert_by_timestamp_sorted e l l' :
  insert_by_timestamp e l = Ok l' → time_sorted l → time_sorted l'.
Proof.
  unfold time_sorted. intros Hins Hsorted. revert l' Hins.
  induction Hsorted as [|y l Hl IH Hy]; intros l'; cbn [insert_by_timestamp].
  - intros [= <-]. repeat constructor.
  - destruct (Datetime.any_lt (stamp y) (stamp e)) as [earlier|] eqn:Hlt;
      cbn [mbind result_bind]; [|done].
    apply any_lt_Ok in Hlt as [Hkind ->].
    destruct (Z.ltb_spec (Datetime.key (stamp y)) (Datetime.key (stamp e))).
    + destruct (insert_by_timestamp e l) as [rest|] eqn:Hrest; [|done].
      cbn [mbind result_bind]. intros [= <-].
      constructor; [by apply IH|].
      rewrite (insert_by_timestamp_perm _ _ _ Hrest).
      constructor; [|done]. apply any_le_key. split; [done | lia].
    + intros [= <-]. constructor; [by constructor|].
      assert (Datetime.any_le (stamp e) (stamp y)) as Hey
        by (apply any_le_key; split; [done | lia]).
      constructor; [done|].
      eapply Forall_impl; [exact Hy|]. cbn beta. intros z Hz.
      apply any_le_key in Hey as [? ?]. apply any_le_key in Hz as [? ?].
      apply any_le_key. split; [congruence | lia].
Qed.

Lemma insert_by_timestamp_at_instant (t : Z) e l l' :
  insert_by_timestamp e l = Ok l' → at_instant t l' = at_instant t (e :: l).
Proof.
  unfold at_instant. revert l'.
  induction l as [|y l IH]; intros l'; cbn [insert_by_timestamp].
  - by intros [= <-].
  - destruct (Datetime.any_lt (stamp y) (stamp e)) as [earlier|] eqn:Hlt;
      cbn [mbind result_bind]; [|done].
    apply any_lt_Ok in Hlt as [Hkind ->].
    destruct (Z.ltb_spec (Datetime.key (stamp y)) (Datetime.key (stamp e)));
      [|by intros [= <-]].
    destruct (insert_by_timestamp e l) as [rest|] eqn:Hrest; [|done].
    cbn [mbind result_bind]. intros [= <-].
    rewrite filter_cons, (IH rest eq_refl), !filter_cons.
    destruct (decide (Datetime.key (stamp y) = t));
      destruct (decide (Datetime.key (stamp e) = t));
      first [done | lia].
Qed.

Lemma sorted_by_timestamp_perm l l' :
  sorted_by_timestamp l = Ok l' → l' ≡ₚ l.
Proof.
  revert l'. induction l as [|e l IH]; intros l'; cbn [sorted_by_timestamp].
  - by intros [= <-].
  - destruct (sorted_by_timestamp l) as [sorted|]; [|done].
    cbn [mbind result_bind]. intros Hins.
    by rewrite (insert_by_timestamp_perm _ _ _ Hins), (IH sorted eq_refl).
Qed.

Lemma sorted_by_timestamp_sorted l l' :
  sorted_by_timestamp l = Ok l' → time_sorted l'.
Proof.
  revert l'. induction l as [|e l IH]; intros l'; cbn [sorted_by_timestamp].
  - intros [= <-]. constructor.
  - destruct (sorted_by_timestamp l) as [sorted|]; [|done].
    cbn [mbind result_bind]. intros Hins.
    eapply insert_by_timestamp_sorted; [exact Hins | by apply IH].
Qed.

Lemma sorted_by_timestamp_stable (t : Z) l l' :
  sorted_by_timestamp l = Ok l' → at_instant t l' = at_instant t l.
Proof.
  revert l'. induction l as [|e l IH]; intros l'; cbn [sorted_by_timestamp].
  - by intros [= <-].
  - destruct (sorted_by_timestamp l) as [sorted|]; [|done].
    cbn [mbind result_bind]. intros Hins.
    rewrite (insert_by_timestamp_at_instant t _ _ _ Hins).
    unfold at_instant in *. by rewrite !filter_cons, (IH sorted eq_refl).
Qed.

(** Entries all naive or all aware: an entry goes in among them without
    a failure when it is of their kind, and with [TypeError] when it meets
    one of the other kind. *)
Lemma insert_by_timestamp_Raise e l (err : exn) :
  insert_by_timestamp e l = Raise err →
  err = TypeError ∧
  ∃ y, y ∈ l ∧ Datetime.is_aware (stamp y) ≠ Datetime.is_aware (stamp e).
Proof.
  induction l as [|y l IH]; cbn [insert_by_timestamp]; [done|].
  destruct (Datetime.any_lt (stamp y) (stamp e)) as [[|]|e'] eqn:Hlt;
    cbn [mbind result_bind]; [|done|].
  - destruct (insert_by_timestamp e l) as [rest|e'']; [done|].
    cbn [mbind result_bind]. intros [= <-].
    destruct (IH eq_refl) as (-> & z & Hz & Hkind).
    split; [done|]. exists z. split; [by right | done].
  - intros [= <-]. apply any_lt_Raise in Hlt as [-> Hkind].
    split; [done|]. exists y. split; [by left | done].
Qed.

Lemma insert_by_timestamp_Ok_kind e l l' :
  insert_by_timestamp e l = Ok l' →
  (∀ x y, x ∈ l → y ∈ l →
          Datetime.is_aware (stamp x) = Datetime.is_aware (stamp y)) →
  ∀ x, x ∈ l → Datetime.is_aware (stamp x) = Datetime.is_aware (stamp e).
Proof.
  destruct l as [|y l]; cbn [insert_by_timestamp].
  - intros _ _ x Hx. by apply elem_of_nil in Hx.
  - destruct (Datetime.any_lt (stamp y) (stamp e)) as [earlier|] eqn:Hlt;
      cbn [mbind result_bind]; [|done].
    apply any_lt_Ok in Hlt as [Hkind _]. intros _ Hsame x Hx.
    rewrite <- Hkind. apply Hsame; [done | by left].
Qed.

Lemma sorted_by_timestamp_Ok_kind l l' :
  sorted_by_timestamp l = Ok l' →
  ∀ x y, x ∈ l → y ∈ l →
         Datetime.is_aware (stamp x) = Datetime.is_aware (stamp y).
Proof.
  revert l'. induction l as [|e l IH]; intros l'; cbn [sorted_by_timestamp].
  - intros _ x y Hx. by apply elem_of_nil in Hx.
  - destruct (sorted_by_timestamp l) as [sorted|] eqn:Hsorted; [|done].
    cbn [mbind result_bind]. intros Hins.
    pose proof (IH sorted eq_refl) as Hsame.
    pose proof (sorted_by_timestamp_perm _ _ Hsorted) as Hperm.
    assert (∀ x, x ∈ l →
              Datetime.is_aware (stamp x) = Datetime.is_aware (stamp e))
      as Hnew.
    { intros x Hx.
      apply (insert_by_timestamp_Ok_kind _ _ _ Hins).
      - intros a b Ha Hb. rewrite Hperm in Ha, Hb. by apply Hsame.
      - by rewrite Hperm. }
    intros x y Hx Hy.
    apply elem_of_cons in Hx as [->|Hx]; apply elem_of_cons in Hy as [->|Hy].
    + done.
    + symmetry. by apply Hnew.
    + by apply Hnew.
    + by apply Hsame.
Qed.

Lemma mixed_timestamps_kinds l :
  mixed_timestamps l ↔
  ∃ x y, x ∈ l ∧ y ∈ l ∧
         Datetime.is_aware (stamp x) ≠ Datetime.is_aware (stamp y).
Proof.
  unfold mixed_timestamps, naive, aware. rewrite !Exists_exists. split.
  - intros [(x & Hx & Hnaive) (y & Hy & Haware)].
    exists x, y. split; [done|]. split; [done|]. congruence.
  - intros (x & y & Hx & Hy & Hkind).
    destruct (Datetime.is_aware (stamp x)) eqn:Hkx;
      destruct (Datetime.is_aware (stamp y)) eqn:Hky; try done.
    + split; [by exists y | by exists x].
    + split; [by exists x | by exists y].
Qed.

(** The sort fails exactly on a list that holds timestamps of both
    kinds, and it fails with [TypeError]. *)
Lemma sorted_by_timestamp_Raise l (err : exn) :
  sorted_by_timestamp l = Raise err ↔ err = TypeError ∧ mixed_timestamps l.
Proof.
  rewrite mixed_timestamps_kinds. split.
  - induction l as [|e l IH]; cbn [sorted_by_timestamp]; [done|].
    destruct (sorted_by_timestamp l) as [sorted|e'] eqn:Hsorted;
      cbn [mbind result_bind].
    + intros Hins.
      apply insert_by_timestamp_Raise in Hins as (-> & y & Hy & Hkind).
      split; [done|]. exists y, e.
      rewrite (sorted_by_timestamp_perm _ _ Hsorted) in Hy.
      split; [by right|]. split; [by left | done].
    + intros [= <-]. destruct (IH eq_refl) as (-> & x & y & Hx & Hy & Hkind).
      split; [done|]. exists x, y. split; [by right|]. split; [by right|done].
  - intros (-> & x & y & Hx & Hy & Hkind).
    destruct (sorted_by_timestamp l) as [sorted|e'] eqn:Hsorted.
    + destruct Hkind. by apply (sorted_by_timestamp_Ok_kind _ _ Hsorted).
    + f_equal. clear x y Hx Hy Hkind. revert e' Hsorted.
      induction l as [|e l IH]; intros e'; cbn [sorted_by_timestamp]; [done|].
      destruct (sorted_by_timestamp l) as [s|e''] eqn:Hs;
        cbn [mbind result_bind].
      * intros Hins. by apply insert_by_timestamp_Raise in Hins as [-> _].
      * intros [= <-]. by apply IH.
Qed.

Lemma last_nonempty_In e l : l ≠ [] → In (List.last l e) l.
Proof.
  induction l as [|x l IH]; [done|]. intros _.
  destruct l as [|y l]; [by left|].
  right. apply IH. done.
Qed.

(** The first entry of a sorted list is not later than its last. *)
Lemma time_sorted_first_last e l :
  time_sorted (e :: l) →
  Datetime.any_le (stamp e) (stamp (List.last l e)).
Proof.
  unfold time_sorted. intros Hsorted.
  apply StronglySorted_inv in Hsorted as [_ He].
  destruct (decide (l = [])) as [->|Hne].
  - apply any_le_key. cbn. split; [done | lia].
  - rewrite Forall_forall in He. apply He.
    by apply list_elem_of_In, last_nonempty_In.
Qed.

Lemma time_sorted_filter (P : UsageEntry.t T S I → Prop)
    `{!∀ e, Decision (P e)} l :
  time_sorted l → time_sorted (filter P l).
Proof.
  unfold time_sorted. induction 1 as [|e l Hl IH He]; [constructor|].
  rewrite filter_cons. case_decide; [|done].
  constructor; [done|].
  rewrite Forall_forall in *. intros z Hz.
  apply He. by apply list_elem_of_filter in Hz as [_ Hz].
Qed.

End SortedFacts.

(** ** Record parsing: success, absence, failure *)

Section FromDictMore.

Variable fromisoformat : string → option Datetime.any.
Implicit Types (o m u : Dict.t json).

Local Abbreviation from_dict := (UsageEntry.from_dict fromisoformat).
Local Abbreviation from_dict_try := (UsageEntry.from_dict_try fromisoformat).

(** The body of [from_dict] once the message [m] of the line and a truthy
    usage value are in hand. *)
Lemma from_dict_try_usage o m usage_data :
  Dict.get "message" o = Some (JObj m) →
  Dict.get "usage" m = Some usage_data →
  Json.truthy usage_data = true →
  from_dict_try (JObj o) =
    (raw ← Json.getitem (JObj o) "timestamp";
     iso ← Json.replace_Z raw;
     ts ← UsageEntry.parse_timestamp fromisoformat iso;
     i ← Json.get usage_data "input_tokens" (JInt 0);
     o' ← Json.get usage_data "output_tokens" (JInt 0);
     cc ← Json.get usage_data "cache_creation_input_tokens" (JInt 0);
     cr ← Json.get usage_data "cache_read_input_tokens" (JInt 0);
     Ok (Some (UsageEntry.mk ts
                 (default (JStr "unknown") (Dict.get "sessionId" o))
                 (default (JStr "unknown") (Dict.get "model" m))
                 (TokenUsage.mk i o' cc cr)))).
Proof.
  intros Hmessage Husage Htruthy. unfold UsageEntry.from_dict_try.
  cbn [Json.get]. rewrite Hmessage. cbn [mbind result_bind Json.get].
  rewrite Husage. cbn [mbind result_bind]. rewrite Htruthy. cbn [negb].
  destruct (Json.getitem (JObj o) "timestamp") as [raw|]; [|done].
  cbn [mbind result_bind].
  destruct (Json.replace_Z raw) as [iso|]; [|done]. cbn [mbind result_bind].
  destruct (UsageEntry.parse_timestamp fromisoformat iso) as [ts|]; [|done].
  cbn [mbind result_bind].
  by destruct (Dict.get "sessionId" o), (Dict.get "model" m).
Qed.

(** The line has no usable usage: the parse ends before it reads else. *)
Lemma from_dict_try_no_usage o :
  (Dict.get "message" o = None ∨
   ∃ m, Dict.get "message" o = Some (JObj m) ∧
        Json.truthy (default (JObj []) (Dict.get "usage" m)) = false) →
  from_dict_try (JObj o) = Ok None.
Proof.
  unfold UsageEntry.from_dict_try. cbn [Json.get].
  intros [-> | (m & -> & Hfalsy)]; cbn [mbind result_bind Json.get].
  - done.
  - destruct (Dict.get "usage" m); cbn [default from_option id] in Hfalsy;
      cbn [mbind result_bind]; by rewrite Hfalsy.
Qed.

(** X5. Record parsing builds a record exactly from a line whose message
    is a dict, whose usage is a dict that is not empty and whose
    timestamp is a string that parses once its "Z" is replaced by
    "+00:00"; the record then has that timestamp, the values the line
    gives, the session and the model "unknown" when the line names none,
    and 0 for each counter the usage omits. *)
Theorem from_dict_record o (entry : RawEntry) :
  from_dict (JObj o) = Ok (Some entry) ↔
  ∃ m u raw ts,
    Dict.get "message" o = Some (JObj m) ∧
    Dict.get "usage" m = Some (JObj u) ∧ u ≠ [] ∧
    Dict.get "timestamp" o = Some (JStr raw) ∧
    fromisoformat (Str.replace_char "Z"%char "+00:00" raw) = Some ts ∧
    entry = record_of o m u ts.
Proof.
  split.
  - intros H. apply from_dict_Some_try in H.
    destruct (Dict.get "message" o) as [message|] eqn:Hmessage.
    2: { rewrite from_dict_try_no_usage in H by (by left). done. }
    destruct message as [| | | | | |m];
      try (unfold UsageEntry.from_dict_try in H; cbn [Json.get] in H;
           rewrite Hmessage in H; done).
    destruct (Json.truthy (default (JObj []) (Dict.get "usage" m)))
      eqn:Htruthy.
    2: { rewrite from_dict_try_no_usage in H by (right; by exists m). done. }
    destruct (Dict.get "usage" m) as [usage_data|] eqn:Husage; [|done].
    cbn [default from_option id] in Htruthy.
    rewrite (from_dict_try_usage o m usage_data Hmessage Husage Htruthy) in H.
    cbn [Json.getitem] in H.
    destruct (Dict.get "timestamp" o) as [raw|] eqn:Hraw; [|done].
    cbn [mbind result_bind] in H.
    destruct raw as [| | | |raw| |]; try done.
    cbn [Json.replace_Z mbind result_bind] in H.
    unfold UsageEntry.parse_timestamp in H.
    destruct (fromisoformat _) as [ts|] eqn:Hts; [|done].
    cbn [mbind result_bind] in H.
    destruct usage_data as [| | | | | |u]; try done.
    cbn [Json.get mbind result_bind] in H. injection H as <-.
    exists m, u, raw, ts. repeat split; try done. by destruct u.
  - intros (m & u & raw & ts & Hmessage & Husage & Hu & Hraw & Hts & ->).
    unfold UsageEntry.from_dict.
    rewrite (from_dict_try_usage o m (JObj u) Hmessage Husage)
      by (by destruct u).
    cbn [Json.getitem]. rewrite Hraw.
    cbn [mbind result_bind Json.replace_Z].
    unfold UsageEntry.parse_timestamp. rewrite Hts.
    reflexivity.
Qed.

(** X6. A line with a usage value but whose timestamp is missing, or is a
    string that does not parse, gives no record and no error -- whatever
    the usage value is, as the timestamp is read first. *)
Theorem from_dict_bad_timestamp o m usage_data :
  Dict.get "message" o = Some (JObj m) →
  Dict.get "usage" m = Some usage_data →
  Json.truthy usage_data = true →
  Dict.get "timestamp" o = None ∨
  (∃ raw, Dict.get "timestamp" o = Some (JStr raw) ∧
          fromisoformat (Str.replace_char "Z"%char "+00:00" raw) = None) →
  from_dict (JObj o) = Ok None.
Proof.
  intros Hmessage Husage Htruthy Hts. unfold UsageEntry.from_dict.
  rewrite (from_dict_try_usage o m usage_data Hmessage Husage Htruthy).
  cbn [Json.getitem]. destruct Hts as [-> | (raw & -> & Hraw)].
  - reflexivity.
  - cbn [mbind result_bind Json.replace_Z].
    unfold UsageEntry.parse_timestamp. by rewrite Hraw.
Qed.

Lemma from_dict_Raise_shape (data : json) (e : exn) :
  from_dict data = Raise e →
  e = AttributeError ∧ ill_shaped fromisoformat data.
Proof.
  unfold UsageEntry.from_dict.
  destruct (from_dict_try data) as [r|e'] eqn:Htry; [done|].
  intros H. destruct data as [| | | | | |o];
    try (cbn in Htry; injection Htry as <-; injection H as <-;
         split; [done | by constructor]).
  destruct (Dict.get "message" o) as [message|] eqn:Hmessage.
  2: { rewrite from_dict_try_no_usage in Htry by (by left). done. }
  destruct message as [| | | | | |m];
    try (unfold UsageEntry.from_dict_try in Htry; cbn [Json.get] in Htry;
         rewrite Hmessage in Htry; cbn in Htry; injection Htry as <-;
         injection H as <-; split; [done|];
         by eapply message_not_dict).
  destruct (Json.truthy (default (JObj []) (Dict.get "usage" m)))
    eqn:Htruthy.
  2: { rewrite from_dict_try_no_usage in Htry by (right; by exists m).
       done. }
  destruct (Dict.get "usage" m) as [usage_data|] eqn:Husage; [|done].
  cbn [default from_option id] in Htruthy.
  rewrite (from_dict_try_usage o m usage_data Hmessage Husage Htruthy)
    in Htry.
  cbn [Json.getitem] in Htry.
  destruct (Dict.get "timestamp" o) as [raw|] eqn:Hraw.
  2: { cbn in Htry. injection Htry as <-. done. }
  cbn [mbind result_bind] in Htry.
  destruct raw as [| | | |raw| |];
    try (cbn in Htry; injection Htry as <-; injection H as <-;
         split; [done|]; by eapply timestamp_not_str).
  cbn [Json.replace_Z mbind result_bind] in Htry.
  unfold UsageEntry.parse_timestamp in Htry.
  destruct (fromisoformat _) as [ts|] eqn:Hts.
  2: { cbn in Htry. injection Htry as <-. done. }
  cbn [mbind result_bind] in Htry.
  destruct usage_data as [| | | | | |u];
    try (cbn in Htry; injection Htry as <-; injection H as <-;
         split; [done|]; by eapply usage_not_dict).
  done.
Qed.

(** X7. The one exception that leaves record parsing is [AttributeError]
    ([KeyError] and [ValueError] are turned into "no record").  It is
    raised exactly when the decoded line is not a dict, when its message
    is not a dict, when -- the usage being truthy -- its timestamp is
    not a string, or when the timestamp parses and the truthy usage is not
    a dict. *)
Theorem from_dict_raises (data : json) (e : exn) :
  from_dict data = Raise e ↔
  e = AttributeError ∧ ill_shaped fromisoformat data.
Proof.
  split; [apply from_dict_Raise_shape|].
  - intros [-> Hshape]. unfold UsageEntry.from_dict.
    destruct Hshape as [data Hdata|o message Hmessage Hm
                       |o m usage_data raw Hmessage Husage Htruthy Hraw Hs
                       |o m usage_data raw ts Hmessage Husage Htruthy Hu Hraw Hts].
    + destruct data; try done. by destruct (Hdata o).
    + unfold UsageEntry.from_dict_try. cbn [Json.get]. rewrite Hmessage.
      destruct message; try done. by destruct (Hm o0).
    + rewrite (from_dict_try_usage o m usage_data Hmessage Husage Htruthy).
      cbn [Json.getitem]. rewrite Hraw. cbn [mbind result_bind].
      destruct raw; try done. by destruct (Hs s).
    + rewrite (from_dict_try_usage o m usage_data Hmessage Husage Htruthy).
      cbn [Json.getitem]. rewrite Hraw.
      cbn [mbind result_bind Json.replace_Z].
      unfold UsageEntry.parse_timestamp. rewrite Hts.
      cbn [mbind result_bind].
      destruct usage_data; try done. by destruct (Hu o0).
Qed.

End FromDictMore.

(** ** Reading the log files *)

Lemma is_a_JSONDecodeError (e : exn) :
  is_a JSONDecodeError e = true ↔ e = JSONDecodeError.
Proof. destruct e; cbn; split; done. Qed.

Lemma is_a_OSError (e : exn) : is_a OSError e = true ↔ e = OSError.
Proof. destruct e; cbn; split; done. Qed.

(** A list has one first element with a given property. *)
Lemma first_split_unique {A} (P : A → Prop) (b b' : list A) (x x' : A)
    (a a' : list A) :
  b ++ x :: a = b' ++ x' :: a' →
  Forall (λ y, ¬ P y) b → P x → Forall (λ y, ¬ P y) b' → P x' →
  b = b' ∧ x = x' ∧ a = a'.
Proof.
  revert b'. induction b as [|y b IH]; intros [|y' b']; cbn [app].
  - by intros [= -> ->].
  - intros [= <- _] _ Hx Hb' _. by apply Forall_cons in Hb' as [? _].
  - intros [= -> _] Hb _ _ Hx'. by apply Forall_cons in Hb as [? _].
  - intros [= <- Hrest] Hb Hx Hb' Hx'.
    apply Forall_cons in Hb as [_ Hb]. apply Forall_cons in Hb' as [_ Hb'].
    destruct (IH b' Hrest Hb Hx Hb' Hx') as (-> & -> & ->). done.
Qed.

Section StripFacts.

Lemma is_space_ascii (line : string) :
  Forall (λ c, Str.is_space c = true) (list_ascii_of_string line) →
  Str.is_ascii line = true.
Proof.
  induction line as [|c line IH]; cbn; [done|].
  intros Hall. apply Forall_cons in Hall as [Hc Hall].
  rewrite IH by done. rewrite andb_true_r.
  unfold Str.is_space in Hc. apply N.ltb_lt.
  apply orb_true_iff in Hc as [Hc|Hc];
    apply andb_true_iff in Hc as [_ Hc]; apply N.leb_le in Hc; lia.
Qed.

Lemma lstrip_blank (line : string) :
  Str.ascii_lstrip line = EmptyString ↔
  Forall (λ c, Str.is_space c = true) (list_ascii_of_string line).
Proof.
  induction line as [|c line IH]; cbn.
  - split; [constructor | done].
  - destruct (Str.is_space c) eqn:Hc.
    + rewrite IH. split; [by constructor | by inversion 1].
    + split; [done | inversion 1; congruence].
Qed.

Lemma lstrip_head (line : string) :
  match Str.ascii_lstrip line with
  | EmptyString => True
  | String c _ => Str.is_space c = false
  end.
Proof.
  induction line as [|c line IH]; cbn; [done|].
  by destruct (Str.is_space c) eqn:Hc.
Qed.

Lemma strip_blank (line : string) :
  Str.ascii_strip line = EmptyString ↔
  Forall (λ c, Str.is_space c = true) (list_ascii_of_string line).
Proof.
  rewrite <- lstrip_blank. unfold Str.ascii_strip.
  pose proof (lstrip_head line) as Hhead.
  destruct (Str.ascii_lstrip line) as [|c rest]; [done|].
  cbn. rewrite Hhead. by destruct (Str.ascii_rstrip rest).
Qed.

End StripFacts.

Section ReaderFacts.

Context {unicode : Str.Unicode}.
Variable fs : FileSystem.
Variable json_loads : string → result json.
Variable fromisoformat : string → option Datetime.any.
Variable CLAUDE_DATA_DIR : string.

Local Abbreviation raises := (line_raises json_loads fromisoformat).
Local Abbreviation fails := (line_fails json_loads fromisoformat).
Local Abbreviation record := (line_record json_loads fromisoformat).
Local Abbreviation skipped := (skipped_line json_loads).

Lemma strip_empty_eqb (line : string) :
  String.eqb (Str.strip line) "" = bool_decide (Str.strip line = EmptyString).
Proof.
  destruct (String.eqb_spec (Str.strip line) "") as [Heq|Hne].
  - by rewrite bool_decide_eq_true_2.
  - by rewrite bool_decide_eq_false_2.
Qed.

(** A line raises one exception at most. *)
Lemma line_raises_unique (line : string) (e e' : exn) :
  raises line e → raises line e' → e = e'.
Proof.
  intros (_ & _ & [H | (d & Hd & H)]) (_ & _ & [H' | (d' & Hd' & H')]);
    congruence.
Qed.

(** The turn of the loop on a line either ends with the exception the
    line raises, or yields the record the line stands for, if any. *)
Lemma parse_line_cases (line : string) :
  (∃ e, raises line e ∧
        parse_line json_loads fromisoformat line = Raise e) ∨
  (¬ fails line ∧
   parse_line json_loads fromisoformat line = Ok (option_list (record line))).
Proof.
  unfold parse_line, line_record, line_fails, line_raises.
  rewrite strip_empty_eqb.
  destruct (decide (Str.strip line = EmptyString)) as [Hblank|Hfull].
  - rewrite bool_decide_eq_true_2 by done. right. split; [|done].
    by intros (e & ? & _).
  - rewrite bool_decide_eq_false_2 by done.
    destruct (json_loads (Str.strip line)) as [data|x] eqn:Hdata;
      cbn [mbind result_bind].
    + destruct (UsageEntry.from_dict fromisoformat data) as [[e|]|x] eqn:Hfd;
        cbn [mbind result_bind].
      * right. split; [|done].
        intros (e' & _ & _ & [[=] | (d & [= <-] & Hd)]). congruence.
      * right. split; [|done].
        intros (e' & _ & _ & [[=] | (d & [= <-] & Hd)]). congruence.
      * apply from_dict_Raise_shape in Hfd as Hshape.
        destruct Hshape as [-> _]. left. exists AttributeError.
        split; [|done]. split; [done|]. split; [done|]. right. by exists data.
    + destruct (decide (x = JSONDecodeError)) as [->|Hx].
      * right. split; [|done].
        intros (e' & _ & Hne & [[= <-] | (d & [=] & _)]). done.
      * left. exists x. split.
        -- split; [done|]. split; [done|]. by left.
        -- destruct (is_a JSONDecodeError x) eqn:Hcatch; [|done].
           by apply is_a_JSONDecodeError in Hcatch.
Qed.

Lemma skipped_line_record (line : string) :
  skipped line →
  parse_line json_loads fromisoformat line = Ok [].
Proof.
  unfold skipped_line, parse_line. rewrite strip_empty_eqb.
  intros [Hblank | Hbad].
  - by rewrite bool_decide_eq_true_2.
  - rewrite Hbad. by destruct (bool_decide _).
Qed.

(** The loop over the lines stops at the first line that raises, with
    the records of the lines before it; when no line raises it yields the
    records of all the lines. *)
Lemma parse_lines_cases (lines : list string) :
  (∃ before line after e,
     lines = before ++ line :: after ∧
     Forall (λ l, ¬ fails l) before ∧ raises line e ∧
     parse_lines json_loads fromisoformat lines =
       (omap record before, Some e)) ∨
  (Forall (λ l, ¬ fails l) lines ∧
   parse_lines json_loads fromisoformat lines = (omap record lines, None)).
Proof.
  induction lines as [|line lines IH].
  - right. split; [constructor | done].
  - cbn [parse_lines].
    destruct (parse_line_cases line) as [(e & Hraise & ->) | [Hfine ->]].
    + left. exists [], line, lines, e. split; [done|].
      split; [constructor | done].
    + destruct IH as [(before & l & after & e & -> & Hbefore & Hl & ->)
                     | [Hall ->]]; cbn [fst snd].
      * left. exists (line :: before), l, after, e. split; [done|].
        split; [by constructor|]. split; [done|].
        cbn [omap list_omap]. by destruct (record line).
      * right. split; [by constructor|].
        cbn [omap list_omap]. by destruct (record line).
Qed.

Lemma parse_lines_skip (before after : list string) (line : string) :
  skipped line →
  parse_lines json_loads fromisoformat (before ++ line :: after) =
  parse_lines json_loads fromisoformat (before ++ after).
Proof.
  intros Hskip. induction before as [|l before IH]; cbn [app parse_lines].
  - rewrite (skipped_line_record line Hskip). cbn [app].
    by destruct (parse_lines json_loads fromisoformat after).
  - by rewrite IH.
Qed.

(** X8. A file that cannot be opened gives no record and no error, and a
    reading that breaks off with an [OSError] gives what the lines read
    until then give.  A blank line or a line that is not JSON changes
    nothing: the file parses as it would without that line.  A line of
    ASCII whitespace only is blank. *)
Theorem parse_jsonl_file_skips (filepath : string) :
  (read_file fs filepath = mkReading [] (Some OSError) →
   parse_jsonl_file fs json_loads fromisoformat filepath = Ok []) ∧
  (∀ other,
     read_error (read_file fs filepath) = Some OSError →
     lines_read (read_file fs other) = lines_read (read_file fs filepath) →
     read_error (read_file fs other) = None →
     parse_jsonl_file fs json_loads fromisoformat filepath =
     parse_jsonl_file fs json_loads fromisoformat other) ∧
  (∀ before line after other,
     lines_read (read_file fs filepath) = before ++ line :: after →
     lines_read (read_file fs other) = before ++ after →
     read_error (read_file fs other) = read_error (read_file fs filepath) →
     skipped line →
     parse_jsonl_file fs json_loads fromisoformat filepath =
     parse_jsonl_file fs json_loads fromisoformat other) ∧
  (∀ line,
     Forall (λ c, Str.is_space c = true) (list_ascii_of_string line) →
     skipped line).
Proof.
  unfold parse_jsonl_file. split; [by intros ->|]. split; [|split].
  - intros other Herr Hlines Hend. rewrite Hlines, Herr, Hend.
    destruct (parse_lines _ _ _).2 as [e|]; [done|].
    reflexivity.
  - intros before line after other Hlines Hother Herr Hskip.
    by rewrite Hlines, Hother, Herr, parse_lines_skip.
  - intros line Hblank. left.
    rewrite Str.strip_ascii by (by apply is_space_ascii).
    by apply strip_blank.
Qed.

(** The exception of a line is not an [OSError], when decoding raises
    none: the handler of the reader lets it pass. *)
Lemma line_raises_not_OSError (line : string) (e : exn) :
  (∀ s, json_loads s ≠ Raise OSError) → raises line e → e ≠ OSError.
Proof.
  intros Hloads (_ & _ & [H | (d & _ & H)]) ->.
  - by apply (Hloads (Str.strip line)).
  - by apply from_dict_Raise_shape in H as [? _].
Qed.

(** X9. For a file read to its end, or until an [OSError], and a
    decoding that raises no [OSError]: the file parses exactly when none
    of its lines raises, and what it yields is then the records of its
    lines in the order of the lines, one for each line that is not blank,
    decodes, and parses to a record. *)
Theorem parse_jsonl_file_records (filepath : string) (lines : list string)
    (entries : list RawEntry) :
  (∀ s, json_loads s ≠ Raise OSError) →
  lines_read (read_file fs filepath) = lines →
  (∀ e, read_error (read_file fs filepath) = Some e → e = OSError) →
  (parse_jsonl_file fs json_loads fromisoformat filepath = Ok entries ↔
   Forall (λ line, ¬ fails line) lines ∧ entries = omap record lines).
Proof.
  intros Hloads Hlines Hend. unfold parse_jsonl_file. rewrite Hlines.
  destruct (parse_lines_cases lines)
    as [(before & line & after & e & -> & Hbefore & Hline & ->) | [Hall ->]];
    cbn [fst snd].
  - assert (is_a OSError e = false) as ->.
    { destruct (is_a OSError e) eqn:Hcatch; [|done].
      apply is_a_OSError in Hcatch.
      by destruct (line_raises_not_OSError line e Hloads Hline). }
    split; [done|]. intros [Hall _].
    apply Forall_app in Hall as [_ Hall].
    apply Forall_cons in Hall as [Hfine _]. destruct Hfine. by exists e.
  - destruct (read_error (read_file fs filepath)) as [e|].
    + rewrite (Hend e eq_refl). cbn.
      split; [by intros [= <-] | by intros [_ ->]].
    + split; [by intros [= <-] | by intros [_ ->]].
Qed.

(** X10. A file fails to parse with the exception of the first of its
    lines that raises, or, when no line raises, with the exception that
    broke off the reading -- unless that exception is an [OSError], which
    the reader takes for the end of the file.  The exception of a line is
    the one its decoding raises, when it is not [JSONDecodeError], or the
    [AttributeError] of record parsing. *)
Theorem parse_jsonl_file_raises (filepath : string) (e : exn) :
  (parse_jsonl_file fs json_loads fromisoformat filepath = Raise e ↔
   e ≠ OSError ∧
   ((∃ before line after,
       lines_read (read_file fs filepath) = before ++ line :: after ∧
       Forall (λ l, ¬ fails l) before ∧ raises line e) ∨
    (Forall (λ l, ¬ fails l) (lines_read (read_file fs filepath)) ∧
     read_error (read_file fs filepath) = Some e))) ∧
  (∀ line, raises line e →
     json_loads (Str.strip line) = Raise e ∨ e = AttributeError).
Proof.
  split.
  2: { intros line (_ & _ & [H | (d & _ & H)]); [by left|].
       right. by apply from_dict_Raise_shape in H as [? _]. }
  unfold parse_jsonl_file.
  destruct (parse_lines_cases (lines_read (read_file fs filepath)))
    as [(before & line & after & e0 & Hlines & Hbefore & Hline & ->)
       | [Hall ->]]; cbn [fst snd].
  - destruct (is_a OSError e0) eqn:Hcatch.
    + apply is_a_OSError in Hcatch as ->. split; [done|].
      intros [Hne [(b & l & a & Hsplit & Hb & Hl) | [Hall _]]].
      * rewrite Hlines in Hsplit.
        destruct (first_split_unique fails _ _ _ _ _ _ Hsplit Hbefore
                    (ex_intro _ _ Hline) Hb (ex_intro _ _ Hl))
          as (_ & <- & _).
        by destruct (line_raises_unique _ _ _ Hline Hl).
      * rewrite Hlines in Hall. apply Forall_app in Hall as [_ Hall].
        apply Forall_cons in Hall as [Hfine _]. destruct Hfine. by exists OSError.
    + split.
      * intros [= <-]. split.
        -- intros ->. by rewrite (proj2 (is_a_OSError OSError)) in Hcatch.
        -- left. by exists before, line, after.
      * intros [Hne [(b & l & a & Hsplit & Hb & Hl) | [Hall _]]].
        -- rewrite Hlines in Hsplit.
           destruct (first_split_unique fails _ _ _ _ _ _ Hsplit Hbefore
                       (ex_intro _ _ Hline) Hb (ex_intro _ _ Hl))
             as (_ & <- & _).
           by rewrite (line_raises_unique _ _ _ Hline Hl).
        -- rewrite Hlines in Hall. apply Forall_app in Hall as [_ Hall].
           apply Forall_cons in Hall as [Hfine _]. destruct Hfine.
           by exists e0.
  - destruct (read_error (read_file fs filepath)) as [e0|] eqn:Hend.
    + destruct (is_a OSError e0) eqn:Hcatch.
      * apply is_a_OSError in Hcatch as ->. split; [done|].
        intros [Hne [(b & l & a & Hsplit & Hb & Hl) | [_ [= <-]]]]; [|done].
        rewrite Hsplit in Hall. apply Forall_app in Hall as [_ Hall].
        apply Forall_cons in Hall as [Hfine _]. destruct Hfine. by exists e.
      * split.
        -- intros [= <-]. split.
           ++ intros ->. by rewrite (proj2 (is_a_OSError OSError)) in Hcatch.
           ++ by right.
        -- intros [Hne [(b & l & a & Hsplit & Hb & Hl) | [_ [= <-]]]]; [|done].
           rewrite Hsplit in Hall. apply Forall_app in Hall as [_ Hall].
           apply Forall_cons in Hall as [Hfine _]. destruct Hfine. by exists e.
    + split; [done|].
      intros [Hne [(b & l & a & Hsplit & Hb & Hl) | [_ [=]]]].
      rewrite Hsplit in Hall. apply Forall_app in Hall as [_ Hall].
      apply Forall_cons in Hall as [Hfine _]. destruct Hfine. by exists e.
Qed.

(** What the loop over the files builds: the entries it started with and
    then those of each file, or the failure of the first file that
    fails. *)
Lemma extend_all_cases (files : list string) (entries : list RawEntry) :
  (∃ before f after e,
     files = before ++ f :: after ∧
     Forall (λ g, is_Ok (parse_jsonl_file fs json_loads fromisoformat g))
            before ∧
     parse_jsonl_file fs json_loads fromisoformat f = Raise e ∧
     extend_all fs json_loads fromisoformat files entries = Raise e) ∨
  (∃ per_file,
     Forall2 (λ f es, parse_jsonl_file fs json_loads fromisoformat f = Ok es)
             files per_file ∧
     extend_all fs json_loads fromisoformat files entries =
       Ok (entries ++ concat per_file)).
Proof.
  revert entries. induction files as [|f files IH]; intros entries.
  - right. exists []. split; [constructor|]. cbn. by rewrite app_nil_r.
  - cbn [extend_all].
    destruct (parse_jsonl_file fs json_loads fromisoformat f)
      as [es|e] eqn:Hf.
    + cbn [mbind result_bind].
      destruct (IH (entries ++ es))
        as [(before & g & after & e & -> & Hbefore & Hg & ->)
           | (per_file & Hall & ->)].
      * left. exists (f :: before), g, after, e. split; [done|].
        split; [|done]. constructor; [by rewrite Hf | done].
      * right. exists (es :: per_file). split; [by constructor|].
        cbn. by rewrite app_assoc.
    + left. exists [], f, files, e. split; [done|].
      split; [constructor | done].
Qed.

(** X11. Without its data directory the reader returns no record.  When
    it returns, the records are those of the files found, all of them and
    no other, in the order of their timestamps, and records with the same
    timestamp keep the order in which they were read. *)
Theorem parse_all_files_sorted (base_dir : option string)
    (entries : list RawEntry) :
  (path_exists fs (default CLAUDE_DATA_DIR base_dir) = false →
   parse_all_files fs json_loads fromisoformat CLAUDE_DATA_DIR base_dir
     = Ok []) ∧
  (parse_all_files fs json_loads fromisoformat CLAUDE_DATA_DIR base_dir
     = Ok entries →
   time_sorted entries ∧
   ∃ per_file,
     Forall2 (λ f es, parse_jsonl_file fs json_loads fromisoformat f = Ok es)
             (find_jsonl_files fs CLAUDE_DATA_DIR base_dir) per_file ∧
     entries ≡ₚ concat per_file ∧
     ∀ t, at_instant t entries = at_instant t (concat per_file)).
Proof.
  unfold parse_all_files. split.
  - intros Hmissing. unfold find_jsonl_files.
    destruct base_dir; cbn [default from_option id] in Hmissing;
      by rewrite Hmissing.
  - destruct (extend_all_cases (find_jsonl_files fs CLAUDE_DATA_DIR base_dir)
                [])
      as [(before & f & after & e & _ & _ & _ & ->) | (per_file & Hall & ->)];
      [done|].
    cbn [mbind result_bind app]. intros Hsorted.
    split; [by apply (sorted_by_timestamp_sorted _ _ Hsorted)|].
    exists per_file. split; [done|].
    split; [by apply sorted_by_timestamp_perm|].
    intros t. by apply sorted_by_timestamp_stable.
Qed.

Lemma Forall2_parse_unique (files : list string)
    (per_file per_file' : list (list RawEntry)) :
  Forall2 (λ f es, parse_jsonl_file fs json_loads fromisoformat f = Ok es)
          files per_file →
  Forall2 (λ f es, parse_jsonl_file fs json_loads fromisoformat f = Ok es)
          files per_file' →
  per_file = per_file'.
Proof.
  intros Hall. revert per_file'.
  induction Hall as [|f es files per_file Hf _ IH]; intros per_file' Hall'.
  - by apply Forall2_nil_inv_l in Hall'.
  - apply Forall2_cons_inv_l in Hall' as (es' & rest & Hf' & Hrest & ->).
    rewrite (IH rest Hrest). congruence.
Qed.

(** X12. With [files] the files found: the reader fails with the
    exception of the first file that fails to parse, or, when every file
    parses, with [TypeError] when the records hold both naive and aware
    timestamps, which the sort cannot compare.  Either way no record of
    any file is returned. *)
Theorem parse_all_files_raises (base_dir : option string)
    (files : list string) (e : exn) :
  find_jsonl_files fs CLAUDE_DATA_DIR base_dir = files →
  (parse_all_files fs json_loads fromisoformat CLAUDE_DATA_DIR base_dir
     = Raise e ↔
   (∃ before f after,
      files = before ++ f :: after ∧
      Forall (λ g, is_Ok (parse_jsonl_file fs json_loads fromisoformat g))
             before ∧
      parse_jsonl_file fs json_loads fromisoformat f = Raise e) ∨
   (e = TypeError ∧
    ∃ per_file,
      Forall2 (λ f es, parse_jsonl_file fs json_loads fromisoformat f = Ok es)
              files per_file ∧
      mixed_timestamps (concat per_file))).
Proof.
  intros <-. unfold parse_all_files.
  set (files := find_jsonl_files fs CLAUDE_DATA_DIR base_dir).
  set (failing := λ g, ∃ x, parse_jsonl_file fs json_loads fromisoformat g
                            = Raise x).
  assert (∀ l, Forall (λ g, is_Ok (parse_jsonl_file fs json_loads
                                     fromisoformat g)) l →
               Forall (λ g, ¬ failing g) l) as Hfine.
  { intros l Hl. eapply Forall_impl; [exact Hl|].
    intros g Hok [x Hx]. cbv beta in Hok. by rewrite Hx in Hok. }
  destruct (extend_all_cases files [])
    as [(before & f & after & e0 & Hfiles & Hbefore & Hf & ->)
       | (per_file & Hall & ->)]; cbn [mbind result_bind app].
  - split.
    + intros [= <-]. left. by exists before, f, after.
    + intros [(b & g & a & Hsplit & Hb & Hg) | (_ & per_file & Hall & _)].
      * rewrite Hfiles in Hsplit.
        destruct (first_split_unique failing _ _ _ _ _ _ Hsplit
                    (Hfine _ Hbefore) (ex_intro _ _ Hf)
                    (Hfine _ Hb) (ex_intro _ _ Hg)) as (_ & <- & _).
        congruence.
      * rewrite Hfiles in Hall.
        apply Forall2_app_inv_l in Hall as (_ & rest & _ & Hrest & _).
        apply Forall2_cons_inv_l in Hrest as (es & _ & Hes & _). congruence.
  - rewrite sorted_by_timestamp_Raise. split.
    + intros [-> Hmixed]. right. split; [done|]. by exists per_file.
    + intros [(b & g & a & Hsplit & Hb & Hg) | (-> & per_file' & Hall' & Hmixed)].
      * rewrite Hsplit in Hall.
        apply Forall2_app_inv_l in Hall as (_ & rest & _ & Hrest & _).
        apply Forall2_cons_inv_l in Hrest as (es & _ & Hes & _). congruence.
      * by rewrite (Forall2_parse_unique _ _ _ Hall Hall').
Qed.

End ReaderFacts.

(** ** The filter in the pipeline *)

Lemma in_window_and (s1 e1 s2 e2 : option Datetime.t) (entries : list Entry) :
  filter (in_window s2 e2) (filter (in_window s1 e1) entries) =
  filter (λ x, in_window s1 e1 x ∧ in_window s2 e2 x) entries.
Proof.
  rewrite list_filter_filter. apply list_filter_iff. tauto.
Qed.

(** X13. Two filters by explicit bounds, one after the other, keep the
    records that lie in both windows, in whichever order the two are
    applied. *)
Theorem filter_by_period_compose (entries : list Entry)
    (s1 e1 s2 e2 : option Datetime.t) (w : World) :
  (once ← filter_by_period entries None s1 e1;
   filter_by_period once None s2 e2) w =
    (Ok (filter (λ x, in_window s1 e1 x ∧ in_window s2 e2 x) entries), w) ∧
  (once ← filter_by_period entries None s1 e1;
   filter_by_period once None s2 e2) w =
  (once ← filter_by_period entries None s2 e2;
   filter_by_period once None s1 e1) w.
Proof.
  assert (∀ a b c d,
    (once ← filter_by_period entries None a b;
     filter_by_period once None c d) w =
    (Ok (filter (λ x, in_window a b x ∧ in_window c d x) entries), w))
    as Hboth.
  { intros a b c d. cbv [mbind IO_bind].
    by rewrite !filter_by_period_absolute, in_window_and. }
  split; [apply Hboth|]. rewrite !Hboth. do 2 f_equal.
  apply list_filter_iff. tauto.
Qed.

Lemma timedelta_days_Raise (d : Z) (e : exn) :
  Datetime.timedelta_days d = Raise e ↔
  e = OverflowError ∧ 999999999 < Z.abs d.
Proof.
  unfold Datetime.timedelta_days.
  destruct (Z.ltb_spec 999999999 (Z.abs d)).
  - split; [by intros [= <-] | by intros [-> _]].
  - split; [done | lia].
Qed.

Lemma datetime_sub_Raise (t : Datetime.t) (delta : Z) (e : exn) :
  Datetime.sub t delta = Raise e ↔
  e = OverflowError ∧
  ¬ (0 ≤ Datetime.wall t - delta < Datetime.max_wall).
Proof.
  unfold Datetime.sub.
  destruct (Z.leb_spec 0 (Datetime.wall t - delta));
    destruct (Z.ltb_spec (Datetime.wall t - delta) Datetime.max_wall);
    cbn [andb]; split; first [done | by intros [= <-]; split; [|lia]
                             | intros [-> ?]; first [done | lia]].
Qed.

Section FilterAnyTimestamp.

Context {T A B : Type} `{!Timestamp T}.
Implicit Types (entries filtered : list (UsageEntry.t T A B)).

(** The day-count mode on records of any kind: the window is computed
    from two clock readings, then the loop runs. *)
Lemma filter_by_period_days_loop entries (d : Z) start end_ (w : World) :
  filter_by_period entries (Some d) start end_ w =
    match Datetime.timedelta_days d ≫= Datetime.sub (clock w (ticks w)) with
    | Ok s =>
        (filter_loop (Some s) (Some (clock w (S (ticks w)))) [] entries,
         mkWorld (clock w) (S (S (ticks w))))
    | Raise e => (Raise e, mkWorld (clock w) (S (ticks w)))
    end.
Proof.
  unfold filter_by_period. run_io.
  destruct (Datetime.timedelta_days d) as [delta|e]; run_io; [|done].
  destruct (Datetime.sub (clock w (ticks w)) delta) as [s|e]; run_io; done.
Qed.

(** Between two bounds the loop fails exactly when it meets a naive
    timestamp. *)
Lemma filter_loop_Raise (s t : Datetime.t) entries filtered (e : exn) :
  filter_loop (Some s) (Some t) filtered entries = Raise e ↔
  e = TypeError ∧ Exists naive entries.
Proof.
  revert filtered. induction entries as [|x entries IH]; intros filtered.
  - cbn. split; [done|]. intros [_ Hex]. by apply Exists_nil in Hex.
  - cbn [filter_loop]. rewrite Exists_cons. unfold filter_step, naive at 1.
    destruct (datetime_of (UsageEntry.timestamp x)) as [a|n];
      cbn [Datetime.any_lt Datetime.any_gt Datetime.is_aware mbind result_bind].
    + destruct (Datetime.lt a s); cbn [mbind result_bind];
        [|destruct (Datetime.gt a t); cbn [mbind result_bind]];
        rewrite IH; split; intros [? ?]; (split; [done|]);
        first [by right | by destruct H0].
    + split; [intros [= <-]; split; [done | by left] | by intros [-> _]].
Qed.

(** X14. With a day-count the filter fails in two ways.  It raises
    [OverflowError], having read the clock once, exactly when the count is
    beyond 999999999 days either way or the start it computes falls out of
    the years 1 to 9999.  Otherwise it reads the clock twice, and it
    raises [TypeError] exactly when one of the records has a naive
    timestamp, which cannot be compared with the aware start. *)
Theorem filter_by_period_days_overflow entries (d : Z)
    (start end_ : option Datetime.t) (w : World) :
  (∀ e, (filter_by_period entries (Some d) start end_ w).1 = Raise e ↔
        (e = OverflowError ∧ days_overflow w d) ∨
        (e = TypeError ∧ ¬ days_overflow w d ∧ Exists naive entries)) ∧
  ticks (filter_by_period entries (Some d) start end_ w).2 =
    if decide (days_overflow w d) then S (ticks w) else S (S (ticks w)).
Proof.
  rewrite filter_by_period_days_loop. unfold days_overflow.
  destruct (Datetime.timedelta_days d) as [delta|e'] eqn:Hdelta;
    cbn [mbind result_bind].
  - assert (delta = d * Datetime.us_per_day ∧ ¬ 999999999 < Z.abs d)
      as [-> Hd].
    { unfold Datetime.timedelta_days in Hdelta.
      destruct (Z.ltb_spec 999999999 (Z.abs d)); [done|].
      injection Hdelta as <-. split; [done | lia]. }
    destruct (Datetime.sub _ _) as [s|e'] eqn:Hs; cbn [fst snd ticks].
    + assert (0 ≤ Datetime.wall (clock w (ticks w)) - d * Datetime.us_per_day
                < Datetime.max_wall) as Hrange.
      { destruct (decide (0 ≤ Datetime.wall (clock w (ticks w))
                              - d * Datetime.us_per_day
                            < Datetime.max_wall)) as [?|Hout]; [done|].
        assert (Datetime.sub (clock w (ticks w)) (d * Datetime.us_per_day)
                = Raise OverflowError) by (by apply datetime_sub_Raise).
        congruence. }
      split; [|rewrite decide_False; [done | tauto]].
      intros e. rewrite filter_loop_Raise. split.
      * intros [-> Hnaive]. right. split; [done|]. split; [tauto | done].
      * intros [[_ [? | ?]] | (-> & _ & Hnaive)]; done.
    + apply datetime_sub_Raise in Hs as [-> Hrange].
      split; [|rewrite decide_True; [done | by right]].
      intros e. split.
      * intros [= <-]. left. split; [done | by right].
      * intros [[-> _] | (_ & Hfine & _)]; [done|]. destruct Hfine. by right.
  - apply timedelta_days_Raise in Hdelta as [-> Hd].
    cbn [fst snd ticks]. split; [|rewrite decide_True; [done | by left]].
    intros e. split.
    + intros [= <-]. left. split; [done | by left].
    + intros [[-> _] | (_ & Hfine & _)]; [done|]. destruct Hfine. by left.
Qed.

End FilterAnyTimestamp.

Lemma in_window_weaken (s1 s2 : Datetime.t) (e : option Datetime.t)
    (entry : Entry) :
  Datetime.le s2 s1 →
  in_window (Some s1) e entry → in_window (Some s2) e entry.
Proof. unfold in_window, Datetime.le. intros Hs [H1 H2]. split; [lia|done]. Qed.

(** X15. Looking further back keeps at least as much: from the same state
    of the world, what the filter keeps for a day-count is, in order,
    part of what it keeps for any larger day-count. *)
Theorem filter_by_period_days_monotone (entries : list Entry) (d1 d2 : Z)
    (w : World) (kept1 kept2 : list Entry) (w1 w2 : World) :
  d1 ≤ d2 →
  filter_by_period entries (Some d1) None None w = (Ok kept1, w1) →
  filter_by_period entries (Some d2) None None w = (Ok kept2, w2) →
  kept1 `sublist_of` kept2 ∧ w1 = w2.
Proof.
  intros Hd. rewrite !filter_by_period_days.
  destruct (Datetime.timedelta_days d1) as [delta1|] eqn:H1; [|done].
  destruct (Datetime.timedelta_days d2) as [delta2|] eqn:H2; [|done].
  cbn [mbind result_bind].
  destruct (Datetime.sub _ delta1) as [s1|] eqn:Hs1; [|done].
  destruct (Datetime.sub _ delta2) as [s2|] eqn:Hs2; [|done].
  intros [= <- <-] [= <- <-]. split; [|done].
  assert (Datetime.le s2 s1) as Hle.
  { unfold Datetime.timedelta_days in H1, H2.
    destruct (_ <? Z.abs d1); [done|]. destruct (_ <? Z.abs d2); [done|].
    injection H1 as <-. injection H2 as <-.
    unfold Datetime.sub in Hs1, Hs2.
    destruct (_ && _) in Hs1; [|done]. destruct (_ && _) in Hs2; [|done].
    injection Hs1 as <-. injection Hs2 as <-.
    unfold Datetime.le, Datetime.instant, Datetime.us_per_day. cbn. nia. }
  rewrite <- (list_filter_filter_l
                (in_window (Some s1) (Some (clock w (S (ticks w)))))
                (in_window (Some s2) (Some (clock w (S (ticks w)))))).
  - apply sublist_filter.
  - intros x. by apply in_window_weaken.
Qed.

Lemma aggregate_stats_first_last (kept : list Entry) (w : World) :
  kept ≠ [] →
  ∃ stats first last,
    aggregate_stats kept w = (Ok stats, w) ∧
    first ∈ kept ∧ last ∈ kept ∧
    PeriodStats.start stats = UsageEntry.timestamp first ∧
    PeriodStats.end_ stats = UsageEntry.timestamp last ∧
    (time_sorted kept →
     Datetime.le (PeriodStats.start stats) (PeriodStats.end_ stats)).
Proof.
  destruct kept as [|first rest]; [done|]. intros _.
  eexists _, first, (List.last rest first).
  split; [apply aggregate_stats_nonempty|].
  split; [by left|]. split.
  - destruct (decide (rest = [])) as [->|Hrest]; [by left|].
    right. by apply list_elem_of_In, last_nonempty_In.
  - split; [done|]. split; [done|]. intros Hsorted.
    exact (time_sorted_first_last first rest Hsorted).
Qed.

(** X16. The filter followed by the aggregation, as the program runs
    them: when the filter keeps something, the statistics start and end
    at the timestamps of two records that the filter kept, hence within
    the window that was asked for (explicit bounds, or the day-count's
    window); for an input in the order of time the start is not after
    the end.  The clock is not read again. *)
Theorem filter_then_aggregate (entries : list Entry) (days : option Z)
    (start end_ : option Datetime.t) (w w' : World) (kept : list Entry) :
  filter_by_period entries days start end_ w = (Ok kept, w') →
  kept ≠ [] →
  ∃ stats first last,
    aggregate_stats kept w' = (Ok stats, w') ∧
    PeriodStats.start stats = UsageEntry.timestamp first ∧
    PeriodStats.end_ stats = UsageEntry.timestamp last ∧
    first ∈ entries ∧ last ∈ entries ∧
    (days = None →
     in_window start end_ first ∧ in_window start end_ last) ∧
    (∀ d, days = Some d →
     ∃ s, Datetime.sub (clock w (ticks w)) (d * Datetime.us_per_day) = Ok s ∧
          in_window (Some s) (Some (clock w (S (ticks w)))) first ∧
          in_window (Some s) (Some (clock w (S (ticks w)))) last) ∧
    (time_sorted entries →
     Datetime.le (PeriodStats.start stats) (PeriodStats.end_ stats)).
Proof.
  intros Hfilter Hkept.
  destruct (aggregate_stats_first_last kept w' Hkept)
    as (stats & first & last & Hrun & Hfirst & Hlast & Hstart & Hend & Hle).
  exists stats, first, last. split; [done|]. split; [done|]. split; [done|].
  destruct days as [d|].
  - rewrite filter_by_period_days in Hfilter.
    unfold Datetime.timedelta_days in Hfilter.
    destruct (_ <? Z.abs d); [done|]. cbn [mbind result_bind] in Hfilter.
    destruct (Datetime.sub _ _) as [s|] eqn:Hs; [|done].
    injection Hfilter as <- <-.
    apply list_elem_of_filter in Hfirst as [Hwf Hfirst].
    apply list_elem_of_filter in Hlast as [Hwl Hlast].
    split; [done|]. split; [done|]. split; [done|]. split.
    + intros d' [= <-]. by exists s.
    + intros Hsorted. apply Hle. by apply time_sorted_filter.
  - rewrite filter_by_period_absolute in Hfilter.
    injection Hfilter as <- <-.
    apply list_elem_of_filter in Hfirst as [Hwf Hfirst].
    apply list_elem_of_filter in Hlast as [Hwl Hlast].
    split; [done|]. split; [done|]. split; [done|]. split; [done|].
    intros Hsorted. apply Hle. by apply time_sorted_filter.
Qed.

(** ** Costs *)

Section Costs.

Context {unicode : Str.Unicode}.

(** X17. Pricing and tier do not depend on the case of the letters of
    the model name: two names with the same lowercase form get the same
    rates and the same tier label, although the exact table is looked up
    with the name as it is written. *)
Theorem pricing_ignores_case (a b : string) :
  Str.lower a = Str.lower b →
  get_pricing a = get_pricing b ∧ get_model_tier a = get_model_tier b.
Proof.
  intros Hlower.
  rewrite !get_pricing_classified, !get_model_tier_classify.
  by rewrite Hlower.
Qed.

Lemma int_truediv_Ok_iff (a b : Z) :
  b ≠ 0 →
  is_Ok (Num.int_truediv a b) ↔ Z.abs a < Num.overflow_threshold * Z.abs b.
Proof.
  intros Hb. split; [|by apply int_truediv_Ok].
  unfold Num.int_truediv.
  destruct (Z.eqb_spec b 0); [done|].
  destruct (Z.leb_spec (Num.overflow_threshold * Z.abs b) (Z.abs a));
    [done | lia].
Qed.

Lemma calculate_model_cost_Ok_iff (ms : ModelStats.t) :
  is_Ok (calculate_model_cost ms) ↔ counters_in_range ms.
Proof.
  split; [|apply calculate_model_cost_Ok].
  unfold calculate_model_cost, counters_in_range.
  assert (∀ a, Z.abs a < Num.overflow_threshold * 1000000 ↔
               is_Ok (Num.int_truediv a 1000000)) as Hrange.
  { intros a. by rewrite int_truediv_Ok_iff. }
  rewrite !Hrange.
  destruct (Num.int_truediv (ModelStats.total_input ms) _); [|done].
  destruct (Num.int_truediv (ModelStats.total_output ms) _); [|done].
  destruct (Num.int_truediv (ModelStats.total_cache_create ms) _); [|done].
  destruct (Num.int_truediv (ModelStats.total_cache_read ms) _); done.
Qed.

Lemma period_cost_loop_Ok_iff items costs :
  is_Ok (period_cost_loop items costs) ↔
  Forall (λ item, counters_in_range item.2) items.
Proof.
  split; [|apply period_cost_loop_Ok].
  revert costs. induction items as [|[model ms] items IH]; intros costs.
  - constructor.
  - cbn [period_cost_loop]. intros Hok.
    destruct (calculate_model_cost ms) as [c|] eqn:Hc; [|done].
    constructor.
    + apply (proj1 (calculate_model_cost_Ok_iff ms)). by rewrite Hc.
    + by apply (IH (Dict.set model c costs)).
Qed.

(** X18. The cost of a period is computed exactly when every counter of
    every model is small enough for its quotient by a million to be a
    float (below about 1.8e314); otherwise the computation raises
    [OverflowError], and it raises nothing else. *)
Theorem total_cost_defined (stats : PeriodStats.t) :
  (is_Ok (total_cost stats) ↔
   Forall (λ item, counters_in_range item.2) (PeriodStats.models stats)) ∧
  (is_Ok (calculate_period_cost stats) ↔ is_Ok (total_cost stats)) ∧
  (∀ e, total_cost stats = Raise e → e = OverflowError).
Proof.
  assert (is_Ok (calculate_period_cost stats) ↔ is_Ok (total_cost stats))
    as Hsame.
  { unfold total_cost.
    destruct (calculate_period_cost stats) as [costs|]; [|done].
    cbn [mbind result_bind]. unfold Num.sum.
    destruct (sum_from_floats (Dict.values costs) (Num.Int 0) eq_refl)
      as (total & -> & _). done. }
  split; [|split; [done|]].
  - rewrite <- Hsame. apply period_cost_loop_Ok_iff.
  - intros e. apply total_cost_Raise.
Qed.

Lemma period_cost_loop_fresh items (cs : list float) (costs : Dict.t float) :
  NoDup (map fst costs ++ map fst items) →
  Forall2 (λ item c, calculate_model_cost item.2 = Ok c) items cs →
  period_cost_loop items costs = Ok (costs ++ zip (map fst items) cs).
Proof.
  intros Hkeys Hcs. revert costs Hkeys.
  induction Hcs as [|[model ms] c items cs Hc _ IH]; intros costs Hkeys.
  - cbn. by rewrite app_nil_r.
  - cbn [period_cost_loop map zip zip_with fst]. cbn [snd] in Hc. rewrite Hc.
    cbn [mbind result_bind].
    cbn [map fst] in Hkeys. apply NoDup_app in Hkeys as (Hcosts & Hsep & Hitems).
    apply NoDup_cons in Hitems as [Hfresh Hitems].
    rewrite dict_set_fresh by (intros Hin; apply (Hsep _ Hin); by left).
    rewrite IH.
    + by rewrite <- app_assoc.
    + rewrite map_app. cbn [map fst]. rewrite <- app_assoc. cbn [app].
      apply NoDup_app. split; [done|]. split.
      * intros k Hk. rewrite elem_of_cons. intros [->|Hin].
        -- by apply (Hsep model Hk); left.
        -- by apply (Hsep k Hk); right.
      * by constructor.
Qed.

Lemma values_zip (keys : list string) (cs : list float) :
  length keys = length cs → Dict.values (zip keys cs) = cs.
Proof.
  unfold Dict.values. revert cs.
  induction keys as [|k keys IH]; intros [|c cs]; cbn; try done.
  intros [= Hlen]. by rewrite IH.
Qed.

(** X19. The cost of a period is the sum of the costs of its models: the
    cost dictionary has the keys of the models dictionary, in its order,
    each with the cost of that model's statistics, and the total is the
    sum of these costs added from the first to the last. *)
Theorem total_cost_additive (stats : PeriodStats.t) (cs : list float) :
  NoDup (map fst (PeriodStats.models stats)) →
  Forall2 (λ item c, calculate_model_cost item.2 = Ok c)
          (PeriodStats.models stats) cs →
  calculate_period_cost stats =
    Ok (zip (map fst (PeriodStats.models stats)) cs) ∧
  total_cost stats = Num.sum (map Num.Float cs).
Proof.
  intros Hkeys Hcs.
  assert (calculate_period_cost stats =
          Ok (zip (map fst (PeriodStats.models stats)) cs)) as Hcosts.
  { unfold calculate_period_cost.
    by rewrite (period_cost_loop_fresh _ cs []). }
  split; [done|]. unfold total_cost. rewrite Hcosts.
  cbn [mbind result_bind]. rewrite values_zip; [done|].
  rewrite length_map. by apply Forall2_length in Hcs.
Qed.

(** X20. A model without tokens costs nothing, whatever its name and
    however many calls it counts. *)
Theorem calculate_model_cost_zero (name : string) (calls : Z) :
  calculate_model_cost (ModelStats.mk name 0 0 0 0 calls) = Ok 0%float.
Proof.
  unfold calculate_model_cost. cbn [ModelStats.model ModelStats.total_input
    ModelStats.total_output ModelStats.total_cache_create
    ModelStats.total_cache_read].
  rewrite get_pricing_classified.
  assert (Num.int_truediv 0 1000000 = Ok 0%float) as ->
    by (vm_compute; reflexivity).
  destruct (Str.contains "opus" (Str.lower name));
    [|destruct (Str.contains "haiku" (Str.lower name))];
    vm_compute; reflexivity.
Qed.

End Costs.

(** ** From the records to the costs and the plan *)

Section RecordsToCosts.

Context {unicode : Str.Unicode}.

Lemma aggregate_loop_summary (entries : list Entry) (name : string) :
  Dict.get name (foldl aggregate_step (∅, []) entries).2 =
    if decide (name ∈ map UsageEntry.model entries)
    then Some (model_summary name entries)
    else None.
Proof.
  rewrite aggregate_loop_get. cbn [snd Dict.get default].
  destruct (decide (entries_of name entries = [])) as [Hnone|Hsome].
  - apply entries_of_nil_iff in Hnone. by rewrite decide_False.
  - destruct (decide (name ∈ map UsageEntry.model entries)) as [_|Hout];
      [|by apply entries_of_nil_iff in Hout].
    rewrite absorb_closed. unfold model_summary. cbn. f_equal.
Qed.

Lemma period_cost_loop_inv items (acc costs : Dict.t float) :
  NoDup (map fst acc ++ map fst items) →
  period_cost_loop items acc = Ok costs →
  ∃ cs, Forall2 (λ item c, calculate_model_cost item.2 = Ok c) items cs ∧
        costs = acc ++ zip (map fst items) cs.
Proof.
  revert acc. induction items as [|[model ms] items IH]; intros acc Hkeys.
  - intros [= <-]. exists []. split; [constructor|]. cbn. by rewrite app_nil_r.
  - cbn [period_cost_loop].
    destruct (calculate_model_cost ms) as [c|] eqn:Hc; [|done].
    cbn [mbind result_bind]. cbn [map fst] in Hkeys.
    apply NoDup_app in Hkeys as (Hacc & Hsep & Hitems).
    apply NoDup_cons in Hitems as [Hfresh Hitems].
    rewrite dict_set_fresh by (intros Hin; apply (Hsep _ Hin); by left).
    intros Hloop. apply IH in Hloop as (cs & Hcs & ->).
    + exists (c :: cs). split; [by constructor|].
      by rewrite <- app_assoc.
    + rewrite map_app. cbn [map fst]. rewrite <- app_assoc. cbn [app].
      apply NoDup_app. split; [done|]. split.
      * intros k Hk. rewrite elem_of_cons. intros [->|Hin].
        -- by apply (Hsep model Hk); left.
        -- by apply (Hsep k Hk); right.
      * by constructor.
Qed.

Lemma dict_get_zip_costs (items : Dict.t ModelStats.t) (cs : list float)
    (name : string) (c : float) :
  Forall2 (λ item c, calculate_model_cost item.2 = Ok c) items cs →
  Dict.get name (zip (map fst items) cs) = Some c →
  ∃ ms, Dict.get name items = Some ms ∧ calculate_model_cost ms = Ok c.
Proof.
  induction 1 as [|[k ms] c' items cs Hc _ IH]; [done|].
  cbn [map fst zip zip_with Dict.get].
  destruct (String.eqb name k); [|done].
  intros [= <-]. by exists ms.
Qed.

Lemma keys_zip (keys : list string) (cs : list float) :
  length keys = length cs → map fst (zip keys cs) = keys.
Proof.
  revert cs. induction keys as [|k keys IH]; intros [|c cs]; cbn; try done.
  intros [= Hlen]. by rewrite IH.
Qed.

(** X21. From the records to the costs: the cost dictionary computed for
    aggregated statistics has one entry per model name, in the order in
    which the names first occur in the records, and the cost under a name
    is the cost of that model's counters summed over its records. *)
Theorem aggregate_then_costs (entries : list Entry) (w w' : World)
    (stats : PeriodStats.t) (costs : Dict.t float) :
  aggregate_stats entries w = (Ok stats, w') →
  calculate_period_cost stats = Ok costs →
  map fst costs = first_occurrences (map UsageEntry.model entries) ∧
  (∀ name c, Dict.get name costs = Some c →
             calculate_model_cost (model_summary name entries) = Ok c) ∧
  total_cost stats = Num.sum (map Num.Float (Dict.values costs)).
Proof.
  intros Hrun Hcosts.
  destruct (aggregate_stats_loop entries w)
    as (stats0 & w0 & Hrun0 & Hmodels & _).
  rewrite Hrun in Hrun0. injection Hrun0 as <- <-.
  assert (map fst (PeriodStats.models stats) =
          first_occurrences (map UsageEntry.model entries)) as Hkeys.
  { rewrite Hmodels, aggregate_loop_keys. cbn [snd map app].
    apply filter_all. intros n. apply not_elem_of_nil. }
  unfold calculate_period_cost in Hcosts.
  apply period_cost_loop_inv in Hcosts as (cs & Hcs & ->).
  2: { cbn [map app]. rewrite Hkeys. apply first_occurrences_NoDup. }
  cbn [app]. split; [|split].
  - rewrite keys_zip; [done|].
    rewrite length_map. by apply Forall2_length in Hcs.
  - intros name c Hget.
    destruct (dict_get_zip_costs _ _ _ _ Hcs Hget) as (ms & Hms & Hc).
    rewrite Hmodels, aggregate_loop_summary in Hms.
    case_decide; [|done]. by injection Hms as <-.
  - unfold total_cost, calculate_period_cost.
    rewrite (period_cost_loop_fresh _ cs []); [done| |done].
    cbn [map app]. rewrite Hkeys. apply first_occurrences_NoDup.
Qed.

Lemma estimate_plan_usage_in_fields plan_limits (stats : PeriodStats.t)
    (plan : string) (usage : PlanUsage.t) :
  estimate_plan_usage_in plan_limits stats plan = Ok (Some usage) →
  PlanUsage.plan usage = plan ∧
  total_cost stats = Ok (PlanUsage.cost_used usage) ∧
  PlanUsage.calls_used usage = PeriodStats.total_calls stats ∧
  ∃ limits, Dict.get plan plan_limits = Some limits ∧
            PlanUsage.cost_limit usage = PlanLimit.cost limits ∧
            PlanUsage.calls_limit usage = PlanLimit.messages limits.
Proof.
  unfold estimate_plan_usage_in.
  destruct (Dict.get plan plan_limits) as [limits|]; [|done].
  rewrite bind_Ok. intros (cost & Hcost & H).
  rewrite bind_Ok in H. destruct H as (cp & _ & H).
  rewrite bind_Ok in H. destruct H as (kp & _ & [= <-]).
  cbn. split; [done|]. split; [done|]. split; [done|]. by exists limits.
Qed.

(** X22. From the records to the plan: the plan usage estimated for
    aggregated statistics reports as calls used the number of records
    that were aggregated, whatever the plan. *)
Theorem aggregate_then_estimate (entries : list Entry) (w w' : World)
    (stats : PeriodStats.t) (plan : string) (usage : PlanUsage.t) :
  aggregate_stats entries w = (Ok stats, w') →
  estimate_plan_usage stats plan = Ok (Some usage) →
  PlanUsage.calls_used usage = Z.of_nat (length entries) ∧
  PlanUsage.plan usage = plan ∧
  total_cost stats = Ok (PlanUsage.cost_used usage).
Proof.
  intros Hrun Husage.
  apply estimate_plan_usage_in_fields in Husage
    as (Hplan & Hcost & Hcalls & _).
  destruct (aggregate_stats_sums _ _ _ _ Hrun) as [Htotal _].
  by rewrite Hcalls, Htotal.
Qed.

End RecordsToCosts.

(** ** The further properties at sample inputs *)

Section FurtherSamples.

#[local] Existing Instance sample_text.

Lemma pricing_ignores_case_witness :
  get_pricing "CLAUDE-3-OPUS-20240229" = get_pricing "claude-3-opus-20240229" ∧
  get_model_tier "CLAUDE-3-OPUS-20240229" =
    get_model_tier "claude-3-opus-20240229".
Proof.
  apply (pricing_ignores_case "CLAUDE-3-OPUS-20240229"
                              "claude-3-opus-20240229").
  reflexivity.
Defined.

Lemma from_dict_bad_timestamp_witness :
  UsageEntry.from_dict fromisoformat_2025 (JObj undated_line) = Ok None.
Proof.
  apply (from_dict_bad_timestamp fromisoformat_2025 undated_line
           [("usage", JObj [("input_tokens", JInt 12)])]
           (JObj [("input_tokens", JInt 12)])).
  - reflexivity.
  - reflexivity.
  - reflexivity.
  - left. reflexivity.
Defined.

Lemma sample_loads_no_OSError (s : string) : sample_loads s ≠ Raise OSError.
Proof.
  unfold sample_loads.
  repeat (destruct (String.eqb s _); [discriminate|]). discriminate.
Qed.

Lemma parse_jsonl_file_records_witness :
  parse_jsonl_file sample_files sample_loads fromisoformat_2025
    "/data/a.jsonl" = Ok [assistant_record] ∧
  parse_jsonl_file sample_files sample_loads fromisoformat_2025
    "/data/cut.jsonl" = Ok [assistant_record].
Proof.
  split.
  - apply (parse_jsonl_file_records sample_files sample_loads
             fromisoformat_2025 "/data/a.jsonl"
             [String.append "user-line" newline;
              newline;
              String.append "{truncated" newline;
              String.append "  assistant-line " newline]).
    + apply sample_loads_no_OSError.
    + reflexivity.
    + intros e He. vm_compute in He. discriminate He.
    + split; [|reflexivity].
      repeat (constructor;
        [intros (e & _ & Hne & [Hraise | (data & Hdata & Hraise)]);
         [vm_compute in Hraise;
          first [discriminate Hraise
                | injection Hraise as <-; by destruct Hne]
         |vm_compute in Hdata;
          first [discriminate Hdata
                | injection Hdata as <-; vm_compute in Hraise;
                  discriminate Hraise]]|]).
      constructor.
  - apply (parse_jsonl_file_records sample_files sample_loads
             fromisoformat_2025 "/data/cut.jsonl"
             [String.append "assistant-line" newline]).
    + apply sample_loads_no_OSError.
    + reflexivity.
    + intros e He. vm_compute in He. by injection He as <-.
    + split; [|reflexivity].
      repeat (constructor;
        [intros (e & _ & Hne & [Hraise | (data & Hdata & Hraise)]);
         [vm_compute in Hraise;
          first [discriminate Hraise
                | injection Hraise as <-; by destruct Hne]
         |vm_compute in Hdata;
          first [discriminate Hdata
                | injection Hdata as <-; vm_compute in Hraise;
                  discriminate Hraise]]|]).
      constructor.
Defined.

Lemma parse_all_files_raises_witness :
  parse_all_files sample_files sample_loads fromisoformat_2025 "/home"
    (Some "/zones") = Raise TypeError ↔
  (∃ before f after,
     ["/data/a.jsonl"; "/data/naive.jsonl"] = before ++ f :: after ∧
     Forall (λ g, is_Ok (parse_jsonl_file sample_files sample_loads
                           fromisoformat_2025 g)) before ∧
     parse_jsonl_file sample_files sample_loads fromisoformat_2025 f
       = Raise TypeError) ∨
  (TypeError = TypeError ∧
   ∃ per_file,
     Forall2 (λ f es, parse_jsonl_file sample_files sample_loads
                        fromisoformat_2025 f = Ok es)
             ["/data/a.jsonl"; "/data/naive.jsonl"] per_file ∧
     mixed_timestamps (concat per_file)).
Proof.
  apply (parse_all_files_raises sample_files sample_loads fromisoformat_2025
           "/home" (Some "/zones")).
  reflexivity.
Defined.

Lemma filter_by_period_days_monotone_witness :
  drop 2 last_days `sublist_of` drop 1 last_days ∧
  mkWorld ticking_clock 2 = mkWorld ticking_clock 2.
Proof.
  apply (filter_by_period_days_monotone last_days 1 2
           (mkWorld ticking_clock 0)).
  - lia.
  - reflexivity.
  - reflexivity.
Defined.

Lemma filter_then_aggregate_witness :
  ∃ stats first last,
    aggregate_stats day_old (mkWorld ticking_clock 2) =
      (Ok stats, mkWorld ticking_clock 2) ∧
    PeriodStats.start stats = UsageEntry.timestamp first ∧
    PeriodStats.end_ stats = UsageEntry.timestamp last ∧
    first ∈ day_old ∧ last ∈ day_old ∧
    (Some 1 = None →
     in_window None None first ∧ in_window None None last) ∧
    (∀ d, Some 1 = Some d →
     ∃ s, Datetime.sub (ticking_clock 0) (d * Datetime.us_per_day) = Ok s ∧
          in_window (Some s) (Some (ticking_clock 1)) first ∧
          in_window (Some s) (Some (ticking_clock 1)) last) ∧
    (time_sorted day_old →
     Datetime.le (PeriodStats.start stats) (PeriodStats.end_ stats)).
Proof.
  apply (filter_then_aggregate day_old (Some 1) None None
           (mkWorld ticking_clock 0) (mkWorld ticking_clock 2) day_old).
  - reflexivity.
  - discriminate.
Defined.

Lemma total_cost_additive_witness :
  calculate_period_cost two_models =
    Ok [("claude-3-opus-20240229", 75%float);
        ("claude-3-haiku-20240307", 0.25%float)] ∧
  total_cost two_models = Num.sum [Num.Float 75; Num.Float 0.25].
Proof.
  apply (total_cost_additive two_models [75%float; 0.25%float]).
  - apply NoDup_cons. split; [|apply NoDup_singleton].
    rewrite list_elem_of_singleton. discriminate.
  - constructor; [vm_compute; reflexivity|].
    constructor; [vm_compute; reflexivity | constructor].
Defined.

Lemma aggregate_then_costs_witness :
  map fst [("claude-3-5-haiku-20241022", 4.5%float)] =
    first_occurrences (map UsageEntry.model haiku_calls) ∧
  (∀ name c,
     Dict.get name [("claude-3-5-haiku-20241022", 4.5%float)] = Some c →
     calculate_model_cost (model_summary name haiku_calls) = Ok c) ∧
  total_cost
    (PeriodStats.mk (Datetime.mk (new_year_2025 + 1) 0)
       (Datetime.mk (new_year_2025 + 3) 0)
       [("claude-3-5-haiku-20241022",
         ModelStats.mk "claude-3-5-haiku-20241022" 3000000 3000000 0 0 3)] 1)
    = Num.sum (map Num.Float
                 (Dict.values [("claude-3-5-haiku-20241022", 4.5%float)])).
Proof.
  apply (aggregate_then_costs haiku_calls (mkWorld frozen_clock 0)
           (mkWorld frozen_clock 0)).
  - reflexivity.
  - vm_compute. reflexivity.
Defined.

Lemma aggregate_then_estimate_witness :
  PlanUsage.calls_used
    (PlanUsage.mk "pro" (Num.Float 4.5) 18 (Num.Float 25) 3 250
       (Num.Float 1.2)) = Z.of_nat (length haiku_calls) ∧
  PlanUsage.plan
    (PlanUsage.mk "pro" (Num.Float 4.5) 18 (Num.Float 25) 3 250
       (Num.Float 1.2)) = "pro" ∧
  total_cost
    (PeriodStats.mk (Datetime.mk (new_year_2025 + 1) 0)
       (Datetime.mk (new_year_2025 + 3) 0)
       [("claude-3-5-haiku-20241022",
         ModelStats.mk "claude-3-5-haiku-20241022" 3000000 3000000 0 0 3)] 1)
    = Ok (Num.Float 4.5).
Proof.
  apply (aggregate_then_estimate haiku_calls (mkWorld frozen_clock 0)
           (mkWorld frozen_clock 0)).
  - reflexivity.
  - vm_compute. reflexivity.
Defined.

(** ** The reader and the filter on the sample files *)

Example reader_skips_and_sorts :
  parse_all_files sample_files sample_loads fromisoformat_2025 "/home"
    (Some "/data")
  = Ok [assistant_record; assistant_record].
Proof. reflexivity. Qed.

Example reader_without_directory :
  parse_all_files sample_files sample_loads fromisoformat_2025 "/home" None
  = Ok [].
Proof. reflexivity. Qed.

Example reader_fails_on_text_message :
  parse_all_files sample_files sample_loads fromisoformat_2025 "/home"
    (Some "/mixed")
  = Raise AttributeError.
Proof. reflexivity. Qed.

Example reader_fails_on_mixed_zones :
  parse_jsonl_file sample_files sample_loads fromisoformat_2025
    "/data/naive.jsonl" = Ok [naive_record] ∧
  parse_all_files sample_files sample_loads fromisoformat_2025 "/home"
    (Some "/zones")
  = Raise TypeError.
Proof. split; reflexivity. Qed.

Example file_not_utf8 :
  parse_jsonl_file sample_files sample_loads fromisoformat_2025
    "/data/latin1.jsonl" = Raise UnicodeDecodeError.
Proof. reflexivity. Qed.

Example file_with_long_integer :
  parse_jsonl_file sample_files sample_loads fromisoformat_2025
    "/data/digits.jsonl" = Raise ValueError.
Proof. reflexivity. Qed.

Example filter_fails_on_naive_record :
  (filter_by_period [assistant_record; naive_record] (Some 1) None None
     (mkWorld ticking_clock 0)).1 = Raise TypeError ∧
  (filter_by_period [assistant_record] (Some 1) None None
     (mkWorld ticking_clock 0)).1 = Ok [assistant_record].
Proof. split; reflexivity. Qed.

End FurtherSamples.
